(** * middlewarebuilder: decorator-chain builder and the storage example

    A shallow embedding of the Go packages [middlewarebuilder] (the chain
    builder), its test fixtures (the text-concatenation middlewares) and
    [example/storage] (debug, cache and telemetry decorators around an
    in-memory repository).

    Conventions of the embedding:
    - a Go result pair [(T, error)] is a pair [T * option error]; [None] is
      the nil error;
    - side effects are explicit: factories thread a world state, repository
      methods thread the state of the object graph and return the events
      they emitted;
    - every method runs to completion before the next one starts: the
      mutexes of the source are not represented. *)

From Stdlib Require Import Strings.String Strings.Ascii Strings.Byte Lists.List ZArith.
From stdpp Require Import base option list strings gmap.

Open Scope string_scope.
Open Scope list_scope.

(** ** Errors *)

(** [errors.New] and [fmt.Errorf] with a trailing [%w].  Go compares the
    values made by [errors.New] by pointer; here two of them are equal when
    their texts are, which is exact for the package-level sentinels below
    (their texts differ). *)
Inductive error : Type :=
| errors_New (text : string)
| fmt_Errorf (prefix : string) (err : error).

Global Instance error_eq_dec : EqDecision error.
Proof. solve_decision. Defined.

(** [errors.Is]: walk the chain of wrapped errors. *)
Fixpoint errors_Is (err target : error) : bool :=
  if decide (err = target) then true
  else match err with
       | errors_New _ => false
       | fmt_Errorf _ inner => errors_Is inner target
       end.

(** [err.Error()] *)
Fixpoint Error (err : error) : string :=
  match err with
  | errors_New text => text
  | fmt_Errorf prefix inner => prefix +:+ Error inner
  end.

(** ** Package middlewarebuilder *)

Module Middlewarebuilder.

Definition errMissingHandler : error := errors_New "missing handler".

Section Builder.
(** [T] is the type of the chain links; [W] is whatever state the
    factories' [Create] methods can read and change (a counter, a log). *)
Context {T W : Type}.

Record Factory : Type := { Create : T -> W -> (T * option error) * W }.

(** [FactoryFunc] implements [Factory] as a function. *)
Definition FactoryFunc (f : T -> W -> (T * option error) * W) : Factory :=
  {| Create := f |}.

(** The loop of [Factories.Create].  [n] is [i + 1] for the loop variable
    [i], so the loop stops at [n = 0] and starts at [n = len(f)].  The index
    [i] is then always in range, and the branch for an index out of range
    (a run-time panic in Go) is never taken: see [Factories_Create_fold]. *)
Fixpoint Create_loop (f : list Factory) (n : nat) (next : T) (w : W)
  : (T * option error) * W :=
  match n with
  | O => ((next, None), w)
  | S i =>
      match f !! i with
      | Some fi =>
          let '((next', err), w') := Create fi next w in
          match err with
          | Some e => ((next', Some e), w')
          | None => Create_loop f i next' w'
          end
      | None => ((next, None), w)
      end
  end.

Definition Factories_Create (f : list Factory) (handler : T) (w : W)
  : (T * option error) * W :=
  Create_loop f (length f) handler w.

Record Builder : Type := { factories : list Factory; handler : option T }.

Definition NewBuilder : Builder := {| factories := []; handler := None |}.

Definition Add (b : Builder) (middlewareFactory : Factory) : Builder :=
  {| factories := factories b ++ [middlewareFactory]; handler := handler b |}.

Definition WithHandler (b : Builder) (h : T) : Builder :=
  {| factories := factories b; handler := Some h |}.

(** [zero] is the zero value of [T]. *)
Definition Build (zero : T) (b : Builder) (w : W) : (T * option error) * W :=
  match handler b with
  | None => ((zero, Some errMissingHandler), w)
  | Some h => Factories_Create (factories b) h w
  end.

(** Continue with [k] unless the result so far carries an error. *)
Definition and_then (acc : (T * option error) * W)
  (k : T -> W -> (T * option error) * W) : (T * option error) * W :=
  match acc with
  | ((next, None), w) => k next w
  | ((_, Some _), _) => acc
  end.

(** One round of the loop, as the description of the builder words it:
    [next = factory.Create(next)], stopping at the first error. *)
Definition Create_step (acc : (T * option error) * W) (f : Factory)
  : (T * option error) * W :=
  and_then acc (Create f).

(** A factory that wraps without failing and without side effect. *)
Definition wrapFactory (g : T -> T) : Factory :=
  FactoryFunc (fun next w => ((g next, None), w)).
End Builder.

Arguments Factory : clear implicits.
Arguments Builder : clear implicits.

End Middlewarebuilder.

(** ** The fixtures of the builder's test: text-concatenation middlewares *)

Module BuilderTest.
Import Middlewarebuilder.

(** The values of the interface [textCreator] that the test can build: the
    nil interface, [exampleHandler{}] and [exampleMiddleware{ExtraText, Next}]. *)
Inductive textCreator : Type :=
| nilTextCreator
| exampleHandler
| exampleMiddleware (ExtraText : string) (Next : textCreator).

Definition errExample : error := errors_New "example error".

(** [CreateText]; [None] is the nil-dereference panic of a call on the nil
    interface. *)
Fixpoint CreateText (e : textCreator) (input : string) : option string :=
  match e with
  | nilTextCreator => None
  | exampleHandler => Some (input +:+ ": handler")
  | exampleMiddleware ExtraText Next =>
      let input := input +:+ ": " +:+ ExtraText in
      CreateText Next input
  end.

(** [exampleMiddlewareFactory{ExtraText}.Create] *)
Definition exampleMiddlewareFactory {W : Type} (ExtraText : string)
  : Factory textCreator W :=
  {| Create := fun next w => ((exampleMiddleware ExtraText next, None), w) |}.

(** The factory of the second sub-test: [return nil, errExample]. *)
Definition failingFactory {W : Type} : Factory textCreator W :=
  FactoryFunc (fun next w => ((nilTextCreator, Some errExample), w)).

(** The builder of the sub-test "Should create middlewarebuilder chain in
    order". *)
Definition orderedBuilder : Builder textCreator unit :=
  WithHandler
    (Add (Add (Add NewBuilder (exampleMiddlewareFactory "first"))
              (exampleMiddlewareFactory "second"))
         (exampleMiddlewareFactory "third"))
    exampleHandler.

(** The builder of the sub-test "Should return error from middlewarebuilder
    factory". *)
Definition failingBuilder : Builder textCreator unit :=
  WithHandler
    (Add (Add (Add NewBuilder (exampleMiddlewareFactory "first")) failingFactory)
         (exampleMiddlewareFactory "third"))
    exampleHandler.

(** Text that a chain of middlewares with the given extra texts adds before
    the handler's own suffix. *)
Fixpoint extraTexts (ts : list string) : string :=
  match ts with
  | [] => EmptyString
  | t :: rest => ": " +:+ t +:+ extraTexts rest
  end.

(** Factories observed through a side effect: the world is the log of the
    names of the factories whose [Create] ran, most recent first. *)
Definition logged (name : string) (f : Factory textCreator (list string))
  : Factory textCreator (list string) :=
  FactoryFunc (fun next w => Create f next (name :: w)).

(** A failing factory that hands back what it was given next to its error. *)
Definition passingFailingFactory {W : Type} : Factory textCreator W :=
  FactoryFunc (fun next w => ((next, Some errExample), w)).

Definition leakingBuilder : Builder textCreator unit :=
  WithHandler
    (Add (Add (Add NewBuilder (exampleMiddlewareFactory "first")) passingFailingFactory)
         (exampleMiddlewareFactory "third"))
    exampleHandler.

(** The failing builder of the test with every factory observed. *)
Definition observedFailingBuilder : Builder textCreator (list string) :=
  WithHandler
    (Add (Add (Add NewBuilder (logged "first" (exampleMiddlewareFactory "first")))
              (logged "second" failingFactory))
         (logged "third" (exampleMiddlewareFactory "third")))
    exampleHandler.

(** Three observed factories and no handler. *)
Definition observedBuilderWithoutHandler : Builder textCreator (list string) :=
  Add (Add (Add NewBuilder (logged "first" (exampleMiddlewareFactory "first")))
           (logged "second" (exampleMiddlewareFactory "second")))
      (logged "third" (exampleMiddlewareFactory "third")).

End BuilderTest.

(** ** Package storage: the repository, its decorators and the store *)

Module Storage.
Import Middlewarebuilder.

(** *** Execution contexts *)

(** The dynamic values a context can carry under a key (Go's [any]). *)
Inductive any : Type :=
| any_nil
| any_string (s : string)
| any_bool (b : bool)
| any_int (z : Z).

(** Context keys are compared with their type: a [debugEnablerCtxKey] is
    never equal to a key of another type, whatever its text. *)
Inductive ctxKey : Type :=
| debugEnablerCtxKey (s : string)
| otherCtxKey (s : string).

Global Instance ctxKey_eq_dec : EqDecision ctxKey.
Proof. solve_decision. Defined.

Inductive Context : Type :=
| context_Background
| context_WithValue (parent : Context) (key : ctxKey) (val : any).

(** [ctx.Value(key)]: the innermost binding of [key], nil without one. *)
Fixpoint context_Value (ctx : Context) (key : ctxKey) : any :=
  match ctx with
  | context_Background => any_nil
  | context_WithValue parent k val =>
      if decide (k = key) then val else context_Value parent key
  end.

(** Whether some [WithValue] of the chain binds [key]. *)
Fixpoint context_binds (ctx : Context) (key : ctxKey) : bool :=
  match ctx with
  | context_Background => false
  | context_WithValue parent k _ =>
      if decide (k = key) then true else context_binds parent key
  end.

(** The type assertion [v.(string)] in its two-result form. *)
Definition assert_string (v : any) : string * bool :=
  match v with
  | any_string s => (s, true)
  | _ => (EmptyString, false)
  end.

Definition debugEnabler : ctxKey := debugEnablerCtxKey "debug".

Definition ContextWithEnabledDebug (ctx : Context) : Context :=
  context_WithValue ctx debugEnabler (any_string "enabled").

(** *** Output *)

Inductive Writer : Type :=
| os_Stdout
| os_Stderr
| bufferWriter (id : nat).

Global Instance Writer_eq_dec : EqDecision Writer.
Proof. solve_decision. Defined.

(** What a call writes, in order: text written to a writer with
    [fmt.Fprintf] or [fmt.Println], and a record given to the standard logger
    with [log.Printf] (the elapsed time it carries is not represented, only
    the text before it). *)
Inductive event : Type :=
| fmt_Fprintf (w : Writer) (text : string)
| log_Printf (text : string).

Definition newline : string := String (ascii_of_nat 10) EmptyString.

(** The text written to one writer by a sequence of events.  The standard
    logger writes each of its records as a line to [os.Stderr] (its output
    by default, which the repository never changes); the timestamp and the
    elapsed time in that line are not represented, so the text written to
    [os.Stderr] is not determined once a record was logged: [None]. *)
Fixpoint written_to (w : Writer) (evs : list event) : option string :=
  match evs with
  | [] => Some EmptyString
  | fmt_Fprintf w' text :: rest =>
      if decide (w' = w)
      then match written_to w rest with
           | Some after => Some (text +:+ after)
           | None => None
           end
      else written_to w rest
  | log_Printf _ :: rest =>
      if decide (w = os_Stderr) then None else written_to w rest
  end.

(** The outcome of a method call on a receiver of type [S]: [None] when the
    call panics (a call through a nil interface; what it wrote before is
    then not kept), else the results, the receiver after the call and the
    events emitted. *)
Abbreviation Result A S := (option ((A * S) * list event)).

(** *** Go maps *)

Section GoMap.
Context {K V : Type} `{Countable K}.

(** A value of a Go map type: the nil map (the zero value, as in a struct
    whose map field was never set) or a map made with [make]. *)
Inductive gomap : Type :=
| nil_map
| made_map (m : gmap K V).

(** [make(map[K]V)] *)
Definition make_map : gomap := made_map ∅.

(** [v, ok := m[k]]: reading the nil map finds nothing. *)
Definition map_lookup (g : gomap) (k : K) : option V :=
  match g with
  | nil_map => None
  | made_map m => m !! k
  end.

(** [delete(m, k)]: a no-op on the nil map. *)
Definition map_delete (k : K) (g : gomap) : gomap :=
  match g with
  | nil_map => nil_map
  | made_map m => made_map (delete k m)
  end.

(** [m[k] = v]: [None] is the panic of an assignment to an entry of the
    nil map. *)
Definition map_store (k : K) (v : V) (g : gomap) : option gomap :=
  match g with
  | nil_map => None
  | made_map m => Some (made_map (<[k := v]> m))
  end.

End GoMap.

Arguments gomap K V {_ _}.

(** *** Serializers *)

Record serializer (A : Type) : Type := {
  Serialize : A -> list byte * option error;
  UnSerialize : list byte -> A * option error
}.
Arguments Serialize {A} _ _.
Arguments UnSerialize {A} _ _.

Definition errNotFound : error := errors_New "not found".

(** [Entity[K]]: a value that reports its own identifier. *)
Class Entity (T K : Type) : Type := Identifier : T -> K.

(** The zero value of a type ([var entity T]). *)
Class ZeroValue (T : Type) : Type := zero : T.

Section Repository.
Context {T K : Type} `{Countable K} `{!Entity T K} `{!ZeroValue T}.

(** The method set of the interface [Repository[T, K]] for receivers of
    type [S]. *)
Record Repository_methods (S : Type) : Type := {
  method_Get : Context -> K -> S -> Result (T * option error) S;
  method_Set : Context -> T -> S -> Result (option error) S;
  method_Delete : Context -> K -> S -> Result (option error) S
}.
Arguments method_Get {S} _ _ _ _.
Arguments method_Set {S} _ _ _ _.
Arguments method_Delete {S} _ _ _ _.

(** A value of the interface whose dynamic type is [S]: the methods and the
    receiver they act on. *)
Record Repository (S : Type) : Type := {
  methods : Repository_methods S;
  receiver : S
}.
Arguments methods {S} _.
Arguments receiver {S} _.

Definition after_call {A S : Type} (r : Repository S) (res : Result A S)
  : Result A (Repository S) :=
  match res with
  | None => None
  | Some ((a, s'), out) =>
      Some ((a, {| methods := methods r; receiver := s' |}), out)
  end.

Definition Repository_Get {S : Type} (r : Repository S) (ctx : Context) (id : K)
  : Result (T * option error) (Repository S) :=
  after_call r (method_Get (methods r) ctx id (receiver r)).

Definition Repository_Set {S : Type} (r : Repository S) (ctx : Context) (entity : T)
  : Result (option error) (Repository S) :=
  after_call r (method_Set (methods r) ctx entity (receiver r)).

Definition Repository_Delete {S : Type} (r : Repository S) (ctx : Context) (id : K)
  : Result (option error) (Repository S) :=
  after_call r (method_Delete (methods r) ctx id (receiver r)).

(** **** Debug *)

Record Debug (N : Type) : Type := {
  Debug_Next : Repository N;
  Debug_Output : Writer;
  Debug_Label : string
}.
Arguments Debug_Next {N} _.
Arguments Debug_Output {N} _.
Arguments Debug_Label {N} _.

(** The receiver after a delegated call: the same decorator around the next
    stage as the call left it. *)
Definition Debug_with_Next {N : Type} (d : Debug N) (next : Repository N) : Debug N :=
  {| Debug_Next := next; Debug_Output := Debug_Output d; Debug_Label := Debug_Label d |}.

Definition Debug_Get {N : Type} (d : Debug N) (ctx : Context) (id : K)
  : Result (T * option error) (Debug N) :=
  let '(_, ok) := assert_string (context_Value ctx debugEnabler) in
  let pre :=
    if ok
    then [fmt_Fprintf (Debug_Output d) ("[DEBUG][" +:+ Debug_Label d +:+ "] PreGet" +:+ newline)]
    else [] in
  match Repository_Get (Debug_Next d) ctx id with
  | None => None
  | Some ((res, next), out) => Some ((res, Debug_with_Next d next), (pre ++ out)%list)
  end.

Definition Debug_Set {N : Type} (d : Debug N) (ctx : Context) (entity : T)
  : Result (option error) (Debug N) :=
  let '(_, ok) := assert_string (context_Value ctx debugEnabler) in
  let pre :=
    if ok
    then [fmt_Fprintf (Debug_Output d) ("[DEBUG][" +:+ Debug_Label d +:+ "] PreSet" +:+ newline)]
    else [] in
  match Repository_Set (Debug_Next d) ctx entity with
  | None => None
  | Some ((err, next), out) => Some ((err, Debug_with_Next d next), (pre ++ out)%list)
  end.

Definition Debug_Delete {N : Type} (d : Debug N) (ctx : Context) (id : K)
  : Result (option error) (Debug N) :=
  let '(_, ok) := assert_string (context_Value ctx debugEnabler) in
  let pre :=
    if ok
    then [fmt_Fprintf (Debug_Output d) ("[DEBUG][" +:+ Debug_Label d +:+ "] PreDelete" +:+ newline)]
    else [] in
  match Repository_Delete (Debug_Next d) ctx id with
  | None => None
  | Some ((err, next), out) => Some ((err, Debug_with_Next d next), (pre ++ out)%list)
  end.

Definition Debug_methods (N : Type) : Repository_methods (Debug N) :=
  {| method_Get := fun ctx id d => Debug_Get d ctx id;
     method_Set := fun ctx entity d => Debug_Set d ctx entity;
     method_Delete := fun ctx id d => Debug_Delete d ctx id |}.

(** The form of a trace line: [[DEBUG][<Label>] Pre<Operation>] and a line
    feed. *)
Definition trace_line (label operation : string) : string :=
  "[DEBUG][" +:+ label +:+ "] Pre" +:+ operation +:+ newline.

(** What a debug decorator writes before it delegates, given the value the
    context has for the debug marker. *)
Definition pre_call_trace {N : Type} (d : Debug N) (v : any) (operation : string)
  : list event :=
  match v with
  | any_string _ => [fmt_Fprintf (Debug_Output d) (trace_line (Debug_Label d) operation)]
  | _ => []
  end.

(** **** Cache *)

(** The next stage and the map of cached entities, which is nil in the zero
    value of the struct.  The mutex is not a field: [Get] holds it for the
    whole call; [Set] and [Delete] drop the entry under it and delegate
    after releasing it, and the functions below run the two parts one after
    the other, as a call that no other call overlaps does. *)
Record Cache (N : Type) : Type := {
  Cache_Next : Repository N;
  cached : gomap K T
}.
Arguments Cache_Next {N} _.
Arguments cached {N} _.

Definition Cache_Get {N : Type} (c : Cache N) (ctx : Context) (id : K)
  : Result (T * option error) (Cache N) :=
  match map_lookup (cached c) id with
  | Some entity => Some (((entity, None), c), [])
  | None =>
      match Repository_Get (Cache_Next c) ctx id with
      | None => None
      | Some (((entity, Some err), next), out) =>
          Some (((entity, Some err), {| Cache_Next := next; cached := cached c |}), out)
      | Some (((entity, None), next), out) =>
          match map_store (Identifier entity) entity (cached c) with
          | None => None
          | Some cached' =>
              Some (((entity, None), {| Cache_Next := next; cached := cached' |}), out)
          end
      end
  end.

Definition Cache_Set {N : Type} (c : Cache N) (ctx : Context) (entity : T)
  : Result (option error) (Cache N) :=
  let cached' := map_delete (Identifier entity) (cached c) in
  match Repository_Set (Cache_Next c) ctx entity with
  | None => None
  | Some ((err, next), out) =>
      Some ((err, {| Cache_Next := next; cached := cached' |}), out)
  end.

Definition Cache_Delete {N : Type} (c : Cache N) (ctx : Context) (id : K)
  : Result (option error) (Cache N) :=
  let cached' := map_delete id (cached c) in
  match Repository_Delete (Cache_Next c) ctx id with
  | None => None
  | Some ((err, next), out) =>
      Some ((err, {| Cache_Next := next; cached := cached' |}), out)
  end.

Definition Cache_methods (N : Type) : Repository_methods (Cache N) :=
  {| method_Get := fun ctx id c => Cache_Get c ctx id;
     method_Set := fun ctx entity c => Cache_Set c ctx entity;
     method_Delete := fun ctx id c => Cache_Delete c ctx id |}.

(** **** Telemetry *)

Record Telemetry (N : Type) : Type := { Telemetry_Next : Repository N }.
Arguments Telemetry_Next {N} _.

Definition Telemetry_Get {N : Type} (t : Telemetry N) (ctx : Context) (id : K)
  : Result (T * option error) (Telemetry N) :=
  match Repository_Get (Telemetry_Next t) ctx id with
  | None => None
  | Some ((res, next), out) =>
      Some ((res, {| Telemetry_Next := next |}), (out ++ [log_Printf "Get: "])%list)
  end.

Definition Telemetry_Set {N : Type} (t : Telemetry N) (ctx : Context) (entity : T)
  : Result (option error) (Telemetry N) :=
  match Repository_Set (Telemetry_Next t) ctx entity with
  | None => None
  | Some ((err, next), out) =>
      Some ((err, {| Telemetry_Next := next |}), (out ++ [log_Printf "Set: "])%list)
  end.

Definition Telemetry_Delete {N : Type} (t : Telemetry N) (ctx : Context) (id : K)
  : Result (option error) (Telemetry N) :=
  match Repository_Delete (Telemetry_Next t) ctx id with
  | None => None
  | Some ((err, next), out) =>
      Some ((err, {| Telemetry_Next := next |}), (out ++ [log_Printf "Delete: "])%list)
  end.

Definition Telemetry_methods (N : Type) : Repository_methods (Telemetry N) :=
  {| method_Get := fun ctx id t => Telemetry_Get t ctx id;
     method_Set := fun ctx entity t => Telemetry_Set t ctx entity;
     method_Delete := fun ctx id t => Telemetry_Delete t ctx id |}.

(** **** InMemoryRepository *)

(** [string(key)] turns the serialized identifier into the map key. *)
Record InMemoryRepository : Type := {
  entities : gmap string (list byte);
  identifierSerializer : serializer K;
  entitySerializer : serializer T
}.

Definition InMemoryRepository_with_entities (i : InMemoryRepository)
  (m : gmap string (list byte)) : InMemoryRepository :=
  {| entities := m;
     identifierSerializer := identifierSerializer i;
     entitySerializer := entitySerializer i |}.

Definition NewInMemoryRepository (identitySerializer : serializer K)
  (entitySerializer : serializer T) : InMemoryRepository :=
  {| entities := ∅;
     identifierSerializer := identitySerializer;
     entitySerializer := entitySerializer |}.

Definition InMemoryRepository_Get (i : InMemoryRepository) (ctx : Context) (id : K)
  : Result (T * option error) InMemoryRepository :=
  let entity : T := zero in
  let '(key, err) := Serialize (identifierSerializer i) id in
  match err with
  | Some err =>
      Some (((entity, Some (fmt_Errorf "unable to serialize identifier: " err)), i), [])
  | None =>
      match entities i !! string_of_list_byte key with
      | None => Some (((entity, Some errNotFound), i), [])
      | Some raw =>
          let '(entity, err) := UnSerialize (entitySerializer i) raw in
          match err with
          | Some err =>
              Some (((entity, Some (fmt_Errorf "unable to unserialize entity: " err)), i), [])
          | None => Some (((entity, None), i), [])
          end
      end
  end.

Definition InMemoryRepository_Set (i : InMemoryRepository) (ctx : Context) (entity : T)
  : Result (option error) InMemoryRepository :=
  let '(key, err) := Serialize (identifierSerializer i) (Identifier entity) in
  match err with
  | Some err => Some ((Some (fmt_Errorf "unable to serialize identifier: " err), i), [])
  | None =>
      let '(raw, err) := Serialize (entitySerializer i) entity in
      match err with
      | Some err => Some ((Some (fmt_Errorf "unable to serialize entity: " err), i), [])
      | None =>
          Some ((None,
                 InMemoryRepository_with_entities i
                   (<[string_of_list_byte key := raw]> (entities i))), [])
      end
  end.

Definition InMemoryRepository_Delete (i : InMemoryRepository) (ctx : Context) (id : K)
  : Result (option error) InMemoryRepository :=
  let '(key, err) := Serialize (identifierSerializer i) id in
  match err with
  | Some err => Some ((Some (fmt_Errorf "unable to serialize identifier: " err), i), [])
  | None =>
      Some ((None,
             InMemoryRepository_with_entities i
               (delete (string_of_list_byte key) (entities i))), [])
  end.

Definition InMemoryRepository_methods : Repository_methods InMemoryRepository :=
  {| method_Get := fun ctx id i => InMemoryRepository_Get i ctx id;
     method_Set := fun ctx entity i => InMemoryRepository_Set i ctx entity;
     method_Delete := fun ctx id i => InMemoryRepository_Delete i ctx id |}.

(** The error kinds that the description of the store names, read off the
    error values the store makes. *)
Definition isSerializationError (e : error) : bool :=
  match e with
  | fmt_Errorf prefix _ =>
      bool_decide (prefix = "unable to serialize identifier: ")
      || bool_decide (prefix = "unable to serialize entity: ")
  | errors_New _ => false
  end.

Definition isDeserializationError (e : error) : bool :=
  match e with
  | fmt_Errorf prefix _ => bool_decide (prefix = "unable to unserialize entity: ")
  | errors_New _ => false
  end.

Definition isNotFoundError (e : error) : bool := bool_decide (e = errNotFound).

(** **** Interface values of any dynamic type *)

(** A value of type [Repository[T, K]] as the builder handles it: the
    dynamic type and the value of that type. *)
Record RepositoryValue : Type := {
  dynamic_type : Type;
  dynamic_value : Repository dynamic_type
}.

(** Every method call through the nil interface panics. *)
Definition nil_methods : Repository_methods unit :=
  {| method_Get := fun _ _ _ => None;
     method_Set := fun _ _ _ => None;
     method_Delete := fun _ _ _ => None |}.

Definition nilRepository : RepositoryValue :=
  {| dynamic_type := unit;
     dynamic_value := {| methods := nil_methods; receiver := tt |} |}.

Definition after_dynamic_call {A : Type} (r : RepositoryValue)
  (res : Result A (Repository (dynamic_type r))) : Result A RepositoryValue :=
  match res with
  | None => None
  | Some ((a, v), out) =>
      Some ((a, {| dynamic_type := dynamic_type r; dynamic_value := v |}), out)
  end.

Definition Get (r : RepositoryValue) (ctx : Context) (id : K)
  : Result (T * option error) RepositoryValue :=
  after_dynamic_call r (Repository_Get (dynamic_value r) ctx id).

Definition Set_ (r : RepositoryValue) (ctx : Context) (entity : T)
  : Result (option error) RepositoryValue :=
  after_dynamic_call r (Repository_Set (dynamic_value r) ctx entity).

Definition Delete (r : RepositoryValue) (ctx : Context) (id : K)
  : Result (option error) RepositoryValue :=
  after_dynamic_call r (Repository_Delete (dynamic_value r) ctx id).

(** The struct literals of the decorators, as interface values. *)
Definition Telemetry_value (next : RepositoryValue) : RepositoryValue :=
  {| dynamic_type := Telemetry (dynamic_type next);
     dynamic_value :=
       {| methods := Telemetry_methods (dynamic_type next);
          receiver := {| Telemetry_Next := dynamic_value next |} |} |}.

Definition Debug_value (next : RepositoryValue) (output : Writer) (label : string)
  : RepositoryValue :=
  {| dynamic_type := Debug (dynamic_type next);
     dynamic_value :=
       {| methods := Debug_methods (dynamic_type next);
          receiver := {| Debug_Next := dynamic_value next;
                         Debug_Output := output;
                         Debug_Label := label |} |} |}.

Definition Cache_value (next : RepositoryValue) (m : gomap K T) : RepositoryValue :=
  {| dynamic_type := Cache (dynamic_type next);
     dynamic_value :=
       {| methods := Cache_methods (dynamic_type next);
          receiver := {| Cache_Next := dynamic_value next; cached := m |} |} |}.

Definition InMemoryRepository_value (i : InMemoryRepository) : RepositoryValue :=
  {| dynamic_type := InMemoryRepository;
     dynamic_value := {| methods := InMemoryRepository_methods; receiver := i |} |}.

End Repository.

Arguments Repository_methods T K S : clear implicits.
Arguments Repository T K S : clear implicits.
Arguments RepositoryValue T K : clear implicits.
Arguments InMemoryRepository T K : clear implicits.
Arguments method_Get {T K S} _ _ _ _.
Arguments method_Set {T K S} _ _ _ _.
Arguments method_Delete {T K S} _ _ _ _.
Arguments methods {T K S} _.
Arguments receiver {T K S} _.
Arguments Debug_Next {T K N} _.
Arguments Debug_Output {T K N} _.
Arguments Debug_Label {T K N} _.
Arguments Cache T K {_ _} N.
Arguments Debug T K N : clear implicits.
Arguments Telemetry T K N : clear implicits.
Arguments Cache_Next {T K _ _ N} _.
Arguments cached {T K _ _ N} _.
Arguments Telemetry_Next {T K N} _.
Arguments entities {T K} _.
Arguments identifierSerializer {T K} _.
Arguments entitySerializer {T K} _.
Arguments dynamic_type {T K} _.
Arguments dynamic_value {T K} _.

(** *** The user repository *)

Abbreviation UserID := string.

(** User entity *)
Record User : Type := { ID : UserID; Name : string }.

Global Instance User_eq_dec : EqDecision User.
Proof. solve_decision. Defined.

Global Instance User_Entity : Entity User UserID := fun u => ID u.

Global Instance User_ZeroValue : ZeroValue User :=
  {| ID := EmptyString; Name := EmptyString |}.

(** [UserRepository] is an alias of the long generic type. *)
Abbreviation UserRepository := (RepositoryValue User UserID).

Definition userIDSerializer : serializer UserID :=
  {| Serialize := fun t => (list_byte_of_string t, None);
     UnSerialize := fun bytes => (string_of_list_byte bytes, None) |}.

Section UserRepository.
(** [encoding/json] is not part of the repository: [json.Marshal] on a
    [User] and [json.Unmarshal] into a [User] variable are parameters.
    [json_Unmarshal bytes user] is the variable after the call and the
    error. *)
Variable json_Marshal : User -> list byte * option error.
Variable json_Unmarshal : list byte -> User -> User * option error.

Definition userSerializer : serializer User :=
  {| Serialize := fun t => json_Marshal t;
     UnSerialize := fun bytes =>
       let user : User := zero in
       json_Unmarshal bytes user |}.

Definition NewUserRepository (debugWriter : Writer) : UserRepository * option error :=
  let builder : Builder UserRepository unit := NewBuilder in
  fst (Build nilRepository
    (WithHandler
      (Add (Add (Add (Add builder
        (FactoryFunc (fun next w => ((Telemetry_value next, None), w))))
        (FactoryFunc (fun next w => ((Debug_value next debugWriter "CacheCall", None), w))))
        (FactoryFunc (fun next w => ((Cache_value next make_map, None), w))))
        (FactoryFunc (fun next w => ((Debug_value next debugWriter "StorageCall", None), w))))
      (InMemoryRepository_value (NewInMemoryRepository userIDSerializer userSerializer)))
    tt).

Definition fmt_Println (text : string) : list event :=
  [fmt_Fprintf os_Stdout (text +:+ newline)].

Definition john : User := {| ID := "10"; Name := "John" |}.

(** [ExampleUserRepositoryGet]: everything the example emits, in order;
    [None] if it panics. *)
Definition ExampleUserRepositoryGet : option (list event) :=
  let output := os_Stdout in
  match NewUserRepository output with
  | (_, Some err) => None
  | (repo, None) =>
      let ctx := ContextWithEnabledDebug context_Background in
      let out1 := fmt_Println "Create user" in
      match Set_ repo ctx john with
      | None => None
      | Some ((_, repo), out2) =>
          let out3 := fmt_Println "Populate cache" in
          match Get repo ctx "10" with
          | None => None
          | Some ((_, repo), out4) =>
              let out5 := fmt_Println "Fetch from cache" in
              match Get repo ctx "10" with
              | None => None
              | Some ((_, repo), out6) =>
                  Some (out1 ++ out2 ++ out3 ++ out4 ++ out5 ++ out6)%list
              end
          end
      end
  end.

(** The text after [// Output:] in the example. *)
Definition expectedOutput : string :=
  "Create user" +:+ newline +:+
  "[DEBUG][CacheCall] PreSet" +:+ newline +:+
  "[DEBUG][StorageCall] PreSet" +:+ newline +:+
  "Populate cache" +:+ newline +:+
  "[DEBUG][CacheCall] PreGet" +:+ newline +:+
  "[DEBUG][StorageCall] PreGet" +:+ newline +:+
  "Fetch from cache" +:+ newline +:+
  "[DEBUG][CacheCall] PreGet" +:+ newline.

End UserRepository.

End Storage.

(** ** Stand-ins used to run the storage code on concrete values *)

Module StorageFixtures.
Import Storage.

Definition errEmptyIdentifier : error := errors_New "empty identifier".
Definition errMalformedRecord : error := errors_New "malformed record".

(** An identifier serializer that rejects the empty identifier. *)
Definition strictIDSerializer : serializer UserID :=
  {| Serialize := fun t =>
       if decide (t = EmptyString) then ([], Some errEmptyIdentifier)
       else (list_byte_of_string t, None);
     UnSerialize := fun bytes => (string_of_list_byte bytes, None) |}.

(** Split a text at its first line feed. *)
Fixpoint split_line (s : string) : option (string * string) :=
  match s with
  | EmptyString => None
  | String c rest =>
      if decide (c = ascii_of_nat 10) then Some (EmptyString, rest)
      else match split_line rest with
           | Some (before, after) => Some (String c before, after)
           | None => None
           end
  end.

(** A stand-in for the JSON encoding of a user: the identifier, a line
    feed, the name.  Decoding fails on bytes without a line feed. *)
Definition record_Marshal (u : User) : list byte * option error :=
  (list_byte_of_string (ID u +:+ newline +:+ Name u), None).

Definition record_Unmarshal (bytes : list byte) (user : User) : User * option error :=
  match split_line (string_of_list_byte bytes) with
  | Some (id, name) => ({| ID := id; Name := name |}, None)
  | None => (user, Some errMalformedRecord)
  end.

Definition recordSerializer : serializer User := userSerializer record_Marshal record_Unmarshal.

Definition emptyStore : InMemoryRepository User UserID :=
  NewInMemoryRepository strictIDSerializer recordSerializer.

Definition storeWithJohn : InMemoryRepository User UserID :=
  {| entities := {[ "10" := list_byte_of_string ("10" +:+ newline +:+ "John") ]};
     identifierSerializer := strictIDSerializer;
     entitySerializer := recordSerializer |}.

(** A next stage that counts the calls it receives and answers every [Get]
    with one fixed user, whatever identifier is asked for. *)
Definition countingStub_methods (answer : User) : Repository_methods User UserID nat :=
  {| method_Get := fun _ _ calls => Some (((answer, None), S calls), []);
     method_Set := fun _ _ calls => Some ((None, S calls), []);
     method_Delete := fun _ _ calls => Some ((None, S calls), []) |}.

Definition countingStub (answer : User) (calls : nat) : Repository User UserID nat :=
  {| methods := countingStub_methods answer; receiver := calls |}.

Definition background : Context := context_Background.

Definition userB : User := {| ID := "b"; Name := "Bob" |}.

(** An empty cache in front of a stub that answers every [Get] with the
    user "b". *)
Definition cacheBeforeStub : Cache User UserID nat :=
  {| Cache_Next := countingStub userB 0; cached := make_map |}.

Definition johnny : User := {| ID := "10"; Name := "Johnny" |}.

(** A cache that holds John, in front of a stub that answers with the
    renamed user. *)
Definition cacheHoldingJohn : Cache User UserID nat :=
  {| Cache_Next := countingStub johnny 0; cached := made_map {[ "10" := john ]} |}.

(** The events of the example, in order. *)
Definition exampleEvents : list event :=
  [ fmt_Fprintf os_Stdout ("Create user" +:+ newline);
    fmt_Fprintf os_Stdout (trace_line "CacheCall" "Set");
    fmt_Fprintf os_Stdout (trace_line "StorageCall" "Set");
    log_Printf "Set: ";
    fmt_Fprintf os_Stdout ("Populate cache" +:+ newline);
    fmt_Fprintf os_Stdout (trace_line "CacheCall" "Get");
    fmt_Fprintf os_Stdout (trace_line "StorageCall" "Get");
    log_Printf "Get: ";
    fmt_Fprintf os_Stdout ("Fetch from cache" +:+ newline);
    fmt_Fprintf os_Stdout (trace_line "CacheCall" "Get");
    log_Printf "Get: " ].

(** A context whose debug marker is bound to a value that is not a string. *)
Definition markerNotString : Context :=
  context_WithValue context_Background debugEnabler (any_bool true).

Definition debugOverStub : Debug User UserID nat :=
  {| Debug_Next := countingStub john 0; Debug_Output := os_Stdout; Debug_Label := "CacheCall" |}.

End StorageFixtures.

(** ** Sequences of calls on a builder *)

Module BuilderCalls.
Import Middlewarebuilder.

Section Calls.
Context {T W : Type}.

(** One configuration call on a builder. *)
Inductive call : Type :=
| call_Add (middlewareFactory : Factory T W)
| call_WithHandler (h : T).

Definition apply_call (b : Builder T W) (c : call) : Builder T W :=
  match c with
  | call_Add middlewareFactory => Add b middlewareFactory
  | call_WithHandler h => WithHandler b h
  end.

(** [b.X(..).Y(..)...]: the calls applied from left to right. *)
Definition apply_calls (b : Builder T W) (cs : list call) : Builder T W :=
  fold_left apply_call cs b.

(** The factories that the calls add, in the order of the calls. *)
Fixpoint added (cs : list call) : list (Factory T W) :=
  match cs with
  | [] => []
  | call_Add middlewareFactory :: rest => middlewareFactory :: added rest
  | call_WithHandler _ :: rest => added rest
  end.

(** The handler after the calls, given the one before them. *)
Fixpoint last_handler (cs : list call) (current : option T) : option T :=
  match cs with
  | [] => current
  | call_Add _ :: rest => last_handler rest current
  | call_WithHandler h :: rest => last_handler rest (Some h)
  end.

(** A factory whose [Create] never returns an error. *)
Definition never_fails (f : Factory T W) : Prop :=
  forall (next : T) (w : W), snd (fst (Create f next w)) = None.

End Calls.
End BuilderCalls.

(** ** Package httphandler *)

Module Httphandler.
Import Middlewarebuilder.

(** The parts of [*http.Request] that the package reads; [URL] is the text
    that formatting the URL with [%s] gives. *)
Record Request : Type := { Method : string; URL : string }.

(** What serving a request does, in order: bytes written to the response
    writer, and records given to the standard logger. *)
Inductive effect : Type :=
| Write (bytes : list byte)
| log_Printf (text : string).

(** The values of [http.Handler] in the package: the nil interface,
    [GetUserHandler{}] and [http.HandlerFunc(f)]. *)
Inductive Handler : Type :=
| nilHandler
| GetUserHandler
| HandlerFunc (f : Request -> option (list effect)).

(** [ServeHTTP]; [None] is the panic of a call through the nil interface. *)
Definition ServeHTTP (h : Handler) (request : Request) : option (list effect) :=
  match h with
  | nilHandler => None
  | GetUserHandler => Some [Write (list_byte_of_string "user")]
  | HandlerFunc f => f request
  end.

(** The factory given to [Add] in [CreateGetUserHandler]. *)
Definition loggingFactory : Factory Handler unit :=
  FactoryFunc (fun next w =>
    ((HandlerFunc (fun request =>
        match ServeHTTP next request with
        | None => None
        | Some out => Some (log_Printf (Method request +:+ " " +:+ URL request) :: out)
        end), None), w)).

Definition CreateGetUserHandler : Handler * option error :=
  fst (Build nilHandler
         (WithHandler (Add NewBuilder loggingFactory) GetUserHandler) tt).

End Httphandler.

(** ** Runs of repository calls *)

Module StorageRuns.
Import Storage.

Section Runs.
Context {T K : Type} `{Countable K} `{!Entity T K} `{!ZeroValue T}.

(** The structs as values of the interface [Repository[T, K]]. *)
Definition store_repository (i : InMemoryRepository T K)
  : Repository T K (InMemoryRepository T K) :=
  {| methods := InMemoryRepository_methods; receiver := i |}.

Definition debug_repository {N : Type} (d : Debug T K N) : Repository T K (Debug T K N) :=
  {| methods := Debug_methods N; receiver := d |}.

Definition cache_repository {N : Type} (c : Cache T K N) : Repository T K (Cache T K N) :=
  {| methods := Cache_methods N; receiver := c |}.

Definition telemetry_repository {N : Type} (t : Telemetry T K N)
  : Repository T K (Telemetry T K N) :=
  {| methods := Telemetry_methods N; receiver := t |}.

(** One call on a repository, with the context it is made in. *)
Inductive operation : Type :=
| op_Get (ctx : Context) (id : K)
| op_Set (ctx : Context) (entity : T)
| op_Delete (ctx : Context) (id : K).

(** What the caller gets back from one call. *)
Inductive answer : Type :=
| answer_Get (entity : T) (err : option error)
| answer_Set (err : option error)
| answer_Delete (err : option error).

(** The calls made one after the other on a repository: the answers in
    order and the repository after the last call; [None] if a call panics. *)
Fixpoint run {N : Type} (r : Repository T K N) (ops : list operation)
  : option (list answer * Repository T K N) :=
  match ops with
  | [] => Some ([], r)
  | op_Get ctx id :: rest =>
      match Repository_Get r ctx id with
      | None => None
      | Some (((entity, err), r'), _) =>
          match run r' rest with
          | None => None
          | Some (answers, r'') => Some (answer_Get entity err :: answers, r'')
          end
      end
  | op_Set ctx entity :: rest =>
      match Repository_Set r ctx entity with
      | None => None
      | Some ((err, r'), _) =>
          match run r' rest with
          | None => None
          | Some (answers, r'') => Some (answer_Set err :: answers, r'')
          end
      end
  | op_Delete ctx id :: rest =>
      match Repository_Delete r ctx id with
      | None => None
      | Some ((err, r'), _) =>
          match run r' rest with
          | None => None
          | Some (answers, r'') => Some (answer_Delete err :: answers, r'')
          end
      end
  end.

(** The answers of a run. *)
Definition answers_of {N : Type} (res : option (list answer * Repository T K N))
  : option (list answer) :=
  match res with
  | None => None
  | Some (answers, _) => Some answers
  end.

(** Two identifiers that serialize to the same bytes are the same. *)
Definition identifiers_injective (s : serializer K) : Prop :=
  forall (k1 k2 : K) (b : list byte),
    Serialize s k1 = (b, None) -> Serialize s k2 = (b, None) -> k1 = k2.

(** What the entity serializer encodes, it decodes back. *)
Definition entities_round_trip (s : serializer T) : Prop :=
  forall (e : T) (raw : list byte),
    Serialize s e = (raw, None) -> UnSerialize s raw = (e, None).

(** Every stored entity that decodes sits under the key of its own
    identifier. *)
Definition store_well_keyed (i : InMemoryRepository T K) : Prop :=
  forall (key : string) (raw : list byte) (e : T),
    entities i !! key = Some raw ->
    UnSerialize (entitySerializer i) raw = (e, None) ->
    exists kb : list byte,
      Serialize (identifierSerializer i) (Identifier e) = (kb, None)
      /\ string_of_list_byte kb = key.

(** Every cached entity is what the store holds for its key. *)
Definition cache_coherent (m : gmap K T) (i : InMemoryRepository T K) : Prop :=
  forall (k : K) (e : T),
    m !! k = Some e ->
    exists (kb raw : list byte),
      Serialize (identifierSerializer i) k = (kb, None)
      /\ entities i !! string_of_list_byte kb = Some raw
      /\ UnSerialize (entitySerializer i) raw = (e, None).

(** Every cached entity is cached under the identifier it reports. *)
Definition keyed_by_identifier (g : gomap K T) : Prop :=
  forall (k : K) (e : T), map_lookup g k = Some e -> Identifier e = k.

(** The two parts of [Cache.Set]: what it does while it holds the lock, and
    the delegated write it makes after releasing it.  Another goroutine's
    call on the cache can run between the two. *)
Definition Cache_Set_locked {N : Type} (c : Cache T K N) (entity : T) : Cache T K N :=
  {| Cache_Next := Cache_Next c; cached := map_delete (Identifier entity) (cached c) |}.

Definition Cache_Set_delegate {N : Type} (c : Cache T K N) (ctx : Context) (entity : T)
  : Result (option error) (Cache T K N) :=
  match Repository_Set (Cache_Next c) ctx entity with
  | None => None
  | Some ((err, next), out) =>
      Some ((err, {| Cache_Next := next; cached := cached c |}), out)
  end.

(** Two outcomes of one call agree: both panic, or both return, with the same
    results and repositories related by [R] again. *)
Definition agree {A N1 N2 : Type}
  (R : Repository T K N1 -> Repository T K N2 -> Prop)
  (x : Result A (Repository T K N1)) (y : Result A (Repository T K N2)) : Prop :=
  match x, y with
  | Some ((a1, r1), _), Some ((a2, r2), _) => a1 = a2 /\ R r1 r2
  | None, None => True
  | _, _ => False
  end.

(** The calls [Set] only entities that satisfy [P]. *)
Definition sets_only (P : T -> Prop) (ops : list operation) : Prop :=
  Forall (fun op => match op with
                    | op_Set _ entity => P entity
                    | _ => True
                    end) ops.

(** Related repositories answer each call alike and stay related, as long
    as the entities given to [Set] satisfy [P]. *)
Record simulation {N1 N2 : Type} (P : T -> Prop)
  (R : Repository T K N1 -> Repository T K N2 -> Prop) : Prop := {
  sim_Get : forall r1 r2 ctx id,
    R r1 r2 -> agree R (Repository_Get r1 ctx id) (Repository_Get r2 ctx id);
  sim_Set : forall r1 r2 ctx entity,
    P entity ->
    R r1 r2 -> agree R (Repository_Set r1 ctx entity) (Repository_Set r2 ctx entity);
  sim_Delete : forall r1 r2 ctx id,
    R r1 r2 -> agree R (Repository_Delete r1 ctx id) (Repository_Delete r2 ctx id)
}.

(** A debug decorator and the stage it wraps. *)
Definition debug_layer {N : Type}
  (r1 : Repository T K (Debug T K N)) (r2 : Repository T K N) : Prop :=
  exists d : Debug T K N, r1 = debug_repository d /\ r2 = Debug_Next d.

(** A telemetry decorator and the stage it wraps. *)
Definition telemetry_layer {N : Type}
  (r1 : Repository T K (Telemetry T K N)) (r2 : Repository T K N) : Prop :=
  exists t : Telemetry T K N, r1 = telemetry_repository t /\ r2 = Telemetry_Next t.

(** A store whose serializers fit the cache: identifiers are told apart by
    their bytes, entities decode back, and every stored entity sits under
    its own key. *)
Definition store_fit (i : InMemoryRepository T K) : Prop :=
  identifiers_injective (identifierSerializer i)
  /\ entities_round_trip (entitySerializer i)
  /\ store_well_keyed i.

(** The entity serializer decodes back what it encodes of the entities that
    satisfy [P]. *)
Definition entities_round_trip_on (P : T -> Prop) (s : serializer T) : Prop :=
  forall (e : T) (raw : list byte),
    P e -> Serialize s e = (raw, None) -> UnSerialize s raw = (e, None).

(** As [store_fit], asking the round trip only of the entities that satisfy
    [P]. *)
Definition store_fit_on (P : T -> Prop) (i : InMemoryRepository T K) : Prop :=
  identifiers_injective (identifierSerializer i)
  /\ entities_round_trip_on P (entitySerializer i)
  /\ store_well_keyed i.

(** A cache that holds a made map, whose next stage is related by [S] to a
    store that fits, and whose entries are what that store holds. *)
Definition cache_layer {N : Type} (P : T -> Prop)
  (S : Repository T K N -> Repository T K (InMemoryRepository T K) -> Prop)
  (r1 : Repository T K (Cache T K N))
  (r2 : Repository T K (InMemoryRepository T K)) : Prop :=
  exists (c : Cache T K N) (i : InMemoryRepository T K) (m : gmap K T),
    r1 = cache_repository c
    /\ r2 = store_repository i
    /\ cached c = made_map m
    /\ S (Cache_Next c) (store_repository i)
    /\ store_fit_on P i
    /\ cache_coherent m i.

End Runs.

Arguments operation T K : clear implicits.
Arguments answer T : clear implicits.

End StorageRuns.

(** ** A stand-in for the JSON encoding that decodes what it encodes *)

Module StrictFixtures.
Import Storage StorageFixtures StorageRuns.

Definition errLineFeedInIdentifier : error := errors_New "line feed in identifier".

Fixpoint has_line_feed (s : string) : bool :=
  match s with
  | EmptyString => false
  | String c rest => if decide (c = ascii_of_nat 10) then true else has_line_feed rest
  end.

(** As [record_Marshal], but refusing the identifiers that it could not
    decode back. *)
Definition strict_Marshal (u : User) : list byte * option error :=
  if has_line_feed (ID u) then ([], Some errLineFeedInIdentifier)
  else record_Marshal u.

Definition strictSerializer : serializer User := userSerializer strict_Marshal record_Unmarshal.

Definition strictStore : InMemoryRepository User UserID :=
  NewInMemoryRepository userIDSerializer strictSerializer.

Definition mary : User := {| ID := "11"; Name := "Mary" |}.

(** A cache that holds John in front of the store that holds John. *)
Definition cacheOverStoreWithJohn : Cache User UserID (InMemoryRepository User UserID) :=
  {| Cache_Next := store_repository storeWithJohn;
     cached := made_map {[ "10" := john ]} |}.

(** The store once the renamed user was written over John. *)
Definition storeWithJohnny : InMemoryRepository User UserID :=
  {| entities := {[ "10" := list_byte_of_string ("10" +:+ newline +:+ "Johnny") ]};
     identifierSerializer := strictIDSerializer;
     entitySerializer := recordSerializer |}.

(** A cache that still holds John in front of that store. *)
Definition staleCacheOverStoreWithJohnny
  : Cache User UserID (InMemoryRepository User UserID) :=
  {| Cache_Next := store_repository storeWithJohnny;
     cached := made_map {[ "10" := john ]} |}.

End StrictFixtures.

(** * Properties *)

(** ** Errors *)

Lemma errors_Is_refl (e : error) : errors_Is e e = true.
Proof. destruct e; simpl; case_decide; congruence. Qed.

Lemma errors_Is_wrapped (prefix : string) (e target : error) :
  errors_Is e target = true -> errors_Is (fmt_Errorf prefix e) target = true.
Proof. intros Hin. simpl. case_decide; [reflexivity | exact Hin]. Qed.

Lemma string_append_assoc (a b c : string) : (a +:+ b) +:+ c = a +:+ b +:+ c.
Proof.
  induction a as [|ch a IH]; [reflexivity|].
  change (String ch ((a +:+ b) +:+ c) = String ch (a +:+ b +:+ c)).
  f_equal. exact IH.
Qed.

(** ** The builder *)

Module BuilderFacts.
Import Middlewarebuilder.

Section Loop.
Context {T W : Type}.
Implicit Types (f : Factory T W) (pre post fs : list (Factory T W)).

(** Below [len(pre)] the loop only reads [pre]. *)
Lemma Create_loop_prefix pre post n (next : T) (w : W) :
  n <= length pre ->
  Create_loop (pre ++ post) n next w = Create_loop pre n next w.
Proof.
  revert next w. induction n as [|i IH]; intros next w Hn; simpl; [reflexivity|].
  rewrite lookup_app_l by lia.
  destruct (pre !! i) as [fi|]; [|reflexivity].
  destruct (Create fi next w) as [[next' [e|]] w']; [reflexivity|].
  apply IH. lia.
Qed.

(** Above [len(pre)] the loop runs on [post] and goes on with [pre] if no
    factory of [post] failed. *)
Lemma Create_loop_suffix pre post k (next : T) (w : W) :
  k <= length post ->
  Create_loop (pre ++ post) (length pre + k) next w =
  and_then (Create_loop post k next w) (Create_loop (pre ++ post) (length pre)).
Proof.
  revert next w. induction k as [|i IH]; intros next w Hk.
  - rewrite Nat.add_0_r. reflexivity.
  - rewrite Nat.add_succ_r. simpl.
    rewrite lookup_app_r by lia.
    replace (length pre + i - length pre) with i by lia.
    destruct (post !! i) as [fi|] eqn:Hi.
    + destruct (Create fi next w) as [[next' [e|]] w']; [reflexivity|].
      apply IH. lia.
    + apply lookup_ge_None in Hi. lia.
Qed.

Lemma Factories_Create_app pre post (h : T) (w : W) :
  Factories_Create (pre ++ post) h w =
  and_then (Factories_Create post h w) (Factories_Create pre).
Proof.
  unfold Factories_Create. rewrite length_app.
  rewrite Create_loop_suffix by lia.
  destruct (Create_loop post (length post) h w) as [[inner [e|]] w1]; simpl;
    [reflexivity|].
  apply Create_loop_prefix. lia.
Qed.

Lemma Factories_Create_nil (h : T) (w : W) :
  Factories_Create (@nil (Factory T W)) h w = ((h, None), w).
Proof. reflexivity. Qed.

Lemma Factories_Create_single f (h : T) (w : W) :
  Factories_Create [f] h w = Create f h w.
Proof.
  unfold Factories_Create. simpl.
  destruct (Create f h w) as [[next' [e|]] w']; reflexivity.
Qed.

(** The first-added factory is applied last, to what the others built. *)
Lemma Factories_Create_cons f fs (h : T) (w : W) :
  Factories_Create (f :: fs) h w = and_then (Factories_Create fs h w) (Create f).
Proof.
  change (f :: fs) with ([f] ++ fs). rewrite Factories_Create_app.
  destruct (Factories_Create fs h w) as [[inner [e|]] w1]; simpl; [reflexivity|].
  apply Factories_Create_single.
Qed.

Lemma Factories_Create_fold fs (h : T) (w : W) :
  Factories_Create fs h w = fold_left Create_step (rev fs) ((h, None), w).
Proof.
  induction fs as [|f fs IH].
  - reflexivity.
  - rewrite Factories_Create_cons, IH. simpl rev.
    rewrite fold_left_app. reflexivity.
Qed.

Lemma Factories_Create_wrap (gs : list (T -> T)) (h : T) (w : W) :
  Factories_Create (map wrapFactory gs) h w =
  ((foldr (fun g next => g next) h gs, None), w).
Proof.
  induction gs as [|g gs IH]; [reflexivity|].
  simpl map. rewrite Factories_Create_cons, IH. reflexivity.
Qed.

(** A failing run stops at one factory, after the ones added later built
    their part. *)
Lemma Factories_Create_error_inv fs (h : T) (w : W) (v : T) (e : error) (w2 : W) :
  Factories_Create fs h w = ((v, Some e), w2) ->
  exists pre f post inner w1,
    fs = pre ++ f :: post
    /\ Factories_Create post h w = ((inner, None), w1)
    /\ Create f inner w1 = ((v, Some e), w2).
Proof.
  induction fs as [|f fs IH]; [discriminate|].
  rewrite Factories_Create_cons.
  destruct (Factories_Create fs h w) as [[inner [e'|]] w1] eqn:Hfs; simpl.
  - intros Heq. injection Heq as -> -> ->.
    destruct (IH eq_refl) as (pre & f' & post & inner' & w1' & -> & Hpost & Hf').
    exists (f :: pre), f', post, inner', w1'. auto.
  - intros Hf. exists [], f, fs, inner, w1. auto.
Qed.

Lemma factories_fold_Add fs (b : Builder T W) :
  factories (fold_left Add fs b) = factories b ++ fs.
Proof.
  revert b. induction fs as [|f fs IH]; intros b; simpl.
  - now rewrite app_nil_r.
  - rewrite IH. simpl. now rewrite <- app_assoc.
Qed.

Lemma handler_fold_Add fs (b : Builder T W) :
  handler (fold_left Add fs b) = handler b.
Proof. revert b. induction fs as [|f fs IH]; intros b; simpl; [reflexivity | now rewrite IH]. Qed.

End Loop.
End BuilderFacts.

Module BuilderProperties.
Import Middlewarebuilder BuilderTest BuilderFacts.

Lemma CreateText_chain (ts : list string) (input : string) :
  CreateText (foldr exampleMiddleware exampleHandler ts) input =
  Some (input +:+ extraTexts ts +:+ ": handler").
Proof.
  revert input. induction ts as [|t ts IH]; intros input.
  - reflexivity.
  - simpl foldr. simpl CreateText. rewrite IH. f_equal.
    change (extraTexts (t :: ts)) with (": " +:+ t +:+ extraTexts ts).
    rewrite !string_append_assoc. reflexivity.
Qed.

Lemma exampleMiddlewareFactory_wrap {W : Type} (ts : list string) :
  map (@exampleMiddlewareFactory W) ts = map wrapFactory (map exampleMiddleware ts).
Proof. rewrite map_map. reflexivity. Qed.

(** C1. A builder with handler [h] and factories [f1..fN] (in the order of
    their addition) builds by running the factories from the last added to
    the first added, each on what the previous one returned, starting from
    [h]; so for wrapping factories the chain is [f1 (f2 (.. (fN h)))], the
    first added outermost.  For the text middlewares the chain appends the
    extra texts in the order of addition and the handler's suffix last, and
    the builder of the test, called with "input", gives
    "input: first: second: third: handler". *)
Theorem Build_first_added_outermost :
  forall (T W : Type) (zero : T) (b : Builder T W) (h : T) (w : W),
    handler b = Some h ->
    Build zero b w = fold_left Create_step (rev (factories b)) ((h, None), w)
    /\ (forall gs : list (T -> T),
          factories b = map wrapFactory gs ->
          Build zero b w = ((foldr (fun g next => g next) h gs, None), w))
    /\ (forall (ts : list string) (input : string),
          exists chain : textCreator,
            Build nilTextCreator
              (WithHandler (fold_left Add (map exampleMiddlewareFactory ts) NewBuilder)
                 exampleHandler) tt = ((chain, None), tt)
            /\ CreateText chain input = Some (input +:+ extraTexts ts +:+ ": handler"))
    /\ (exists chain : textCreator,
          Build nilTextCreator orderedBuilder tt = ((chain, None), tt)
          /\ CreateText chain "input" = Some "input: first: second: third: handler").
Proof.
  intros T W zero b h w Hh. unfold Build. rewrite Hh.
  split; [apply Factories_Create_fold|].
  split; [intros gs ->; apply Factories_Create_wrap|].
  split.
  - intros ts input. exists (foldr exampleMiddleware exampleHandler ts). split.
    + cbn [handler WithHandler factories]. rewrite factories_fold_Add. simpl.
      rewrite exampleMiddlewareFactory_wrap, Factories_Create_wrap.
      f_equal. f_equal. induction ts as [|t ts IH]; simpl; congruence.
    + apply CreateText_chain.
  - eexists. split; reflexivity.
Qed.

Lemma Build_first_added_outermost_witness :
  handler orderedBuilder = Some exampleHandler
  /\ Build nilTextCreator orderedBuilder tt =
     fold_left Create_step (rev (factories orderedBuilder)) ((exampleHandler, None), tt).
Proof.
  split; [reflexivity|].
  exact (proj1 (Build_first_added_outermost textCreator unit nilTextCreator
                  orderedBuilder exampleHandler tt eq_refl)).
Defined.

(** C2 (amended). When the factory [f] fails during [Build] (the factories
    [post] added after it have built [inner] without error and [f.Create]
    returns the error [e] with the value [v]), [Build] returns exactly [e],
    next to the value [v] that [f] itself returned, and the world as [f] left
    it; the factories [pre] added before [f] are not run: the outcome is the
    same whatever they are. *)
Theorem Build_stops_at_first_error :
  forall (T W : Type) (zero : T) (b : Builder T W)
         (pre : list (Factory T W)) (f : Factory T W) (post : list (Factory T W))
         (h inner v : T) (e : error) (w w1 w2 : W),
    factories b = pre ++ f :: post ->
    handler b = Some h ->
    Factories_Create post h w = ((inner, None), w1) ->
    Create f inner w1 = ((v, Some e), w2) ->
    Build zero b w = ((v, Some e), w2)
    /\ (forall err, snd (fst (Build zero b w)) = Some err -> errors_Is err e = true)
    /\ (forall pre' : list (Factory T W),
          Build zero {| factories := pre' ++ f :: post; handler := Some h |} w =
          Build zero b w).
Proof.
  intros T W zero b pre f post h inner v e w w1 w2 Hfs Hh Hpost Hf.
  assert (Hrun : forall p, Factories_Create (p ++ f :: post) h w = ((v, Some e), w2)).
  { intros p. rewrite Factories_Create_app, Factories_Create_cons, Hpost.
    simpl. rewrite Hf. reflexivity. }
  unfold Build. rewrite Hh, Hfs. cbn [handler factories].
  split; [apply Hrun|]. split.
  - rewrite Hrun. intros err [= <-]. apply errors_Is_refl.
  - intros pre'. now rewrite !Hrun.
Qed.

Lemma Build_stops_at_first_error_witness :
  (factories observedFailingBuilder =
     [logged "first" (exampleMiddlewareFactory "first")]
     ++ logged "second" failingFactory
     :: [logged "third" (exampleMiddlewareFactory "third")]
   /\ handler observedFailingBuilder = Some exampleHandler)
  /\ Build nilTextCreator observedFailingBuilder [] =
     ((nilTextCreator, Some errExample), ["second"; "third"]).
Proof.
  split; [split; reflexivity|].
  exact (proj1 (Build_stops_at_first_error textCreator (list string) nilTextCreator
                  observedFailingBuilder
                  [logged "first" (exampleMiddlewareFactory "first")]
                  (logged "second" failingFactory)
                  [logged "third" (exampleMiddlewareFactory "third")]
                  exampleHandler (exampleMiddleware "third" exampleHandler)
                  nilTextCreator errExample [] ["third"] ["second"; "third"]
                  eq_refl eq_refl eq_refl eq_refl)).
Defined.

(** C2, as worded, fails: a failing factory that returns its argument next
    to the error makes [Build] return the chain of the inner stages with the
    error, and that chain can be called. *)
Lemma Build_error_returns_inner_chain :
  Factories_Create [exampleMiddlewareFactory "third"] exampleHandler tt =
    ((exampleMiddleware "third" exampleHandler, None), tt)
  /\ Build nilTextCreator leakingBuilder tt =
     ((exampleMiddleware "third" exampleHandler, Some errExample), tt)
  /\ CreateText (exampleMiddleware "third" exampleHandler) "input" =
     Some "input: third: handler".
Proof. repeat split. Qed.

(** The second sub-test: the error of the failing factory is the one that
    [Build] returns, and the test's [errors.Is] check holds. *)
Lemma failingBuilder_returns_errExample :
  Build nilTextCreator failingBuilder tt = ((nilTextCreator, Some errExample), tt)
  /\ errors_Is errExample errExample = true.
Proof. split; reflexivity. Qed.

(** C3. Without a handler [Build] fails with the missing-handler error and
    the zero value, whatever factories were added, and runs no factory: the
    world is returned as it was given. *)
Theorem Build_without_handler :
  forall (T W : Type) (zero : T) (b : Builder T W) (w : W),
    handler b = None ->
    Build zero b w = ((zero, Some errMissingHandler), w)
    /\ (forall fs : list (Factory T W),
          Build zero (fold_left Add fs b) w = ((zero, Some errMissingHandler), w)).
Proof.
  intros T W zero b w Hh. unfold Build. split; [now rewrite Hh|].
  intros fs. now rewrite handler_fold_Add, Hh.
Qed.

Lemma Build_without_handler_witness :
  handler observedBuilderWithoutHandler = None
  /\ Build nilTextCreator observedBuilderWithoutHandler [] =
     ((nilTextCreator, Some errMissingHandler), []).
Proof.
  split; [reflexivity|].
  exact (proj1 (Build_without_handler textCreator (list string) nilTextCreator
                  observedBuilderWithoutHandler [] eq_refl)).
Defined.

End BuilderProperties.

(** ** The in-memory store *)

Module StoreProperties.
Import Storage.

(** Settle the equivalences between the error returned and the case the
    store is in, once the goal names both. *)
Ltac settle_outcome :=
  repeat split; intros;
  repeat match goal with
         | H : exists _, _ |- _ => destruct H
         | H : _ /\ _ |- _ => destruct H
         | H : is_Some _ |- _ => destruct H
         end;
  simplify_eq/=;
  try done;
  try (eexists; split; [reflexivity|]);
  try (split; [reflexivity | eexists; split; [reflexivity|]]);
  repeat match goal with
         | |- context [UnSerialize ?s ?r] =>
             destruct (UnSerialize s r) as [? [?|]]; simplify_eq/=
         | H : context [UnSerialize ?s ?r] |- _ =>
             destruct (UnSerialize s r) as [? [?|]]; simplify_eq/=
         end;
  try done; eauto.

Section Store.
Context {T K : Type} `{Countable K} `{!Entity T K} `{!ZeroValue T}.
Implicit Types (i : InMemoryRepository T K) (ctx : Context) (id : K) (entity : T).

(** C6. [Set] serializes the entity's identifier and the entity.  It
    returns an error exactly when one of the two fails; the error is then a
    serialization error and the store is the one before the call.  When both
    succeed it returns no error, and the store maps the serialized key to
    the serialized entity, whatever it held there, and is unchanged at every
    other key. *)
Theorem InMemoryRepository_Set_overwrites_or_leaves :
  forall i ctx entity (key raw : list byte) (kerr rerr : option error),
    Serialize (identifierSerializer i) (Identifier entity) = (key, kerr) ->
    Serialize (entitySerializer i) entity = (raw, rerr) ->
    exists (err : option error) (i' : InMemoryRepository T K),
      InMemoryRepository_Set i ctx entity = Some ((err, i'), [])
      /\ (is_Some err <-> is_Some kerr \/ is_Some rerr)
      /\ (forall e, err = Some e -> isSerializationError e = true /\ i' = i)
      /\ (err = None ->
          entities i' = <[string_of_list_byte key := raw]> (entities i)
          /\ entities i' !! string_of_list_byte key = Some raw
          /\ (forall k, k <> string_of_list_byte key ->
                entities i' !! k = entities i !! k)
          /\ identifierSerializer i' = identifierSerializer i
          /\ entitySerializer i' = entitySerializer i).
Proof.
  intros i ctx entity key raw kerr rerr Hk Hr.
  unfold InMemoryRepository_Set. rewrite Hk.
  destruct kerr as [ke|]; [|rewrite Hr; destruct rerr as [re|]];
    eexists _, _; (split; [reflexivity|]); (split; [|split]).
  - split; [intros _; left; eauto | intros _; eauto].
  - intros e [= <-]. split; reflexivity.
  - discriminate.
  - split; [intros _; right; eauto | intros _; eauto].
  - intros e [= <-]. split; reflexivity.
  - discriminate.
  - split; [intros [e He]; discriminate | intros [[e He]|[e He]]; discriminate].
  - discriminate.
  - intros _. simpl. repeat split.
    + apply lookup_insert_eq.
    + intros k Hne. now apply lookup_insert_ne.
Qed.

Lemma InMemoryRepository_Get_unserializable i ctx id (key : list byte) (e : error) :
  Serialize (identifierSerializer i) id = (key, Some e) ->
  InMemoryRepository_Get i ctx id =
  Some (((zero, Some (fmt_Errorf "unable to serialize identifier: " e)), i), []).
Proof. intros Hk. unfold InMemoryRepository_Get. now rewrite Hk. Qed.

Lemma InMemoryRepository_Get_absent i ctx id (key : list byte) :
  Serialize (identifierSerializer i) id = (key, None) ->
  entities i !! string_of_list_byte key = None ->
  InMemoryRepository_Get i ctx id = Some (((zero, Some errNotFound), i), []).
Proof. intros Hk Hraw. unfold InMemoryRepository_Get. now rewrite Hk, Hraw. Qed.

Lemma InMemoryRepository_Get_present i ctx id (key raw : list byte) :
  Serialize (identifierSerializer i) id = (key, None) ->
  entities i !! string_of_list_byte key = Some raw ->
  InMemoryRepository_Get i ctx id =
  Some (((fst (UnSerialize (entitySerializer i) raw),
          match snd (UnSerialize (entitySerializer i) raw) with
          | Some e => Some (fmt_Errorf "unable to unserialize entity: " e)
          | None => None
          end), i), []).
Proof.
  intros Hk Hraw. unfold InMemoryRepository_Get. rewrite Hk, Hraw.
  destruct (UnSerialize (entitySerializer i) raw) as [ent [e|]]; reflexivity.
Qed.

(** C7. [Get] answers, in this order of precedence: a serialization error
    exactly when serializing the identifier fails; else the not-found error
    exactly when the store has no entry under the serialized key; else a
    deserialization error exactly when decoding the stored bytes fails; else
    no error.  In the last two cases the entity returned is the one the
    decoder produced from the stored bytes. *)
Theorem InMemoryRepository_Get_outcomes :
  forall i ctx id (key : list byte) (kerr : option error),
    Serialize (identifierSerializer i) id = (key, kerr) ->
    exists (entity : T) (err : option error),
      InMemoryRepository_Get i ctx id = Some (((entity, err), i), [])
      /\ ((exists e, err = Some e /\ isSerializationError e = true) <-> is_Some kerr)
      /\ ((exists e, err = Some e /\ isNotFoundError e = true) <->
            kerr = None /\ entities i !! string_of_list_byte key = None)
      /\ ((exists e, err = Some e /\ isDeserializationError e = true) <->
            kerr = None /\
            exists raw, entities i !! string_of_list_byte key = Some raw
                        /\ is_Some (snd (UnSerialize (entitySerializer i) raw)))
      /\ (err = None <->
            kerr = None /\
            exists raw, entities i !! string_of_list_byte key = Some raw
                        /\ snd (UnSerialize (entitySerializer i) raw) = None)
      /\ (forall raw, kerr = None ->
            entities i !! string_of_list_byte key = Some raw ->
            entity = fst (UnSerialize (entitySerializer i) raw)).
Proof.
  intros i ctx id key kerr Hk.
  destruct kerr as [ke|].
  { rewrite (InMemoryRepository_Get_unserializable i ctx id key ke Hk).
    eexists _, _. split; [reflexivity|]. settle_outcome. }
  destruct (entities i !! string_of_list_byte key) as [raw|] eqn:Hraw.
  2:{ rewrite (InMemoryRepository_Get_absent i ctx id key Hk Hraw).
      eexists _, _. split; [reflexivity|]. settle_outcome. }
  rewrite (InMemoryRepository_Get_present i ctx id key raw Hk Hraw).
  eexists _, _. split; [reflexivity|]. settle_outcome.
Qed.

(** C8. When the identifier serializes, [Delete] returns no error whether
    or not the store holds an entry for it; a second [Delete] of the same
    identifier returns no error either, and after each of them the store has
    no entry under the serialized key (the second call changes nothing);
    the other keys are untouched. *)
Theorem InMemoryRepository_Delete_idempotent :
  forall i ctx id (key : list byte),
    Serialize (identifierSerializer i) id = (key, None) ->
    exists i1 : InMemoryRepository T K,
      InMemoryRepository_Delete i ctx id = Some ((None, i1), [])
      /\ InMemoryRepository_Delete i1 ctx id = Some ((None, i1), [])
      /\ entities i1 !! string_of_list_byte key = None
      /\ (forall k, k <> string_of_list_byte key ->
            entities i1 !! k = entities i !! k).
Proof.
  intros i ctx id key Hk.
  exists (InMemoryRepository_with_entities i
            (delete (string_of_list_byte key) (entities i))).
  unfold InMemoryRepository_Delete. simpl. rewrite Hk.
  split; [reflexivity|]. split.
  - unfold InMemoryRepository_with_entities. simpl.
    rewrite delete_delete_eq. reflexivity.
  - split; [apply lookup_delete_eq|].
    intros k Hne. now apply lookup_delete_ne.
Qed.

(** C10. [Get] never changes the store: in every case it returns the
    receiver it was called on, so the map of serialized keys to serialized
    entities after the call is the map before it; and it writes nothing. *)
Theorem InMemoryRepository_Get_leaves_store :
  forall i ctx id,
    exists (res : T * option error) (i' : InMemoryRepository T K),
      InMemoryRepository_Get i ctx id = Some ((res, i'), [])
      /\ entities i' = entities i
      /\ i' = i.
Proof.
  intros i ctx id. unfold InMemoryRepository_Get.
  destruct (Serialize (identifierSerializer i) id) as [key [ke|]];
    [eexists _, _; repeat split|].
  destruct (entities i !! string_of_list_byte key) as [raw|];
    [|eexists _, _; repeat split].
  destruct (UnSerialize (entitySerializer i) raw) as [entity [de|]];
    eexists _, _; repeat split.
Qed.

End Store.

Import StorageFixtures.

Lemma InMemoryRepository_Set_overwrites_or_leaves_witness :
  exists (err : option error) (i' : InMemoryRepository User UserID),
    InMemoryRepository_Set storeWithJohn background john = Some ((err, i'), [])
    /\ err = None
    /\ entities i' !! "10" = Some (list_byte_of_string ("10" +:+ newline +:+ "John")).
Proof.
  destruct (InMemoryRepository_Set_overwrites_or_leaves storeWithJohn background john
              (list_byte_of_string "10")
              (list_byte_of_string ("10" +:+ newline +:+ "John")) None None)
    as (err & i' & Hset & Herr & Hfail & Hok); [reflexivity | reflexivity |].
  exists err, i'. split; [exact Hset|].
  assert (Hnone : err = None).
  { destruct err as [e|]; [|reflexivity].
    destruct (proj1 Herr (ex_intro _ e eq_refl)) as [[x Hx]|[x Hx]]; discriminate. }
  split; [exact Hnone|]. exact (proj1 (proj2 (Hok Hnone))).
Defined.

Lemma InMemoryRepository_Get_outcomes_witness :
  exists (entity : User) (err : option error),
    InMemoryRepository_Get storeWithJohn background "10" =
      Some (((entity, err), storeWithJohn), [])
    /\ entity = john.
Proof.
  destruct (InMemoryRepository_Get_outcomes storeWithJohn background "10"
              (list_byte_of_string "10") None)
    as (entity & err & Hget & _ & _ & _ & _ & Hent); [reflexivity|].
  exists entity, err. split; [exact Hget|].
  exact (Hent (list_byte_of_string ("10" +:+ newline +:+ "John")) eq_refl eq_refl).
Defined.

Lemma InMemoryRepository_Delete_idempotent_witness :
  exists i1 : InMemoryRepository User UserID,
    InMemoryRepository_Delete storeWithJohn background "10" = Some ((None, i1), [])
    /\ InMemoryRepository_Delete i1 background "10" = Some ((None, i1), [])
    /\ entities i1 !! "10" = None.
Proof.
  destruct (InMemoryRepository_Delete_idempotent storeWithJohn background "10"
              (list_byte_of_string "10"))
    as (i1 & Hfirst & Hsecond & Hgone & _); [reflexivity|].
  exists i1. split; [exact Hfirst|]. split; [exact Hsecond | exact Hgone].
Defined.

End StoreProperties.

(** ** The caching decorator *)

Module CacheProperties.
Import Storage StorageRuns.

Section Cache.
Context {T K : Type} `{Countable K} `{!Entity T K} `{!ZeroValue T} {N : Type}.
Implicit Types (c : Cache T K N) (ctx : Context) (id : K) (entity : T)
  (next : Repository T K N).

Lemma Cache_Get_hit c ctx id entity :
  map_lookup (cached c) id = Some entity ->
  Cache_Get c ctx id = Some (((entity, None), c), []).
Proof. intros Hhit. unfold Cache_Get. now rewrite Hhit. Qed.

Lemma Cache_Get_miss_error c ctx id entity (e : error) next (out : list event) :
  map_lookup (cached c) id = None ->
  Repository_Get (Cache_Next c) ctx id = Some (((entity, Some e), next), out) ->
  Cache_Get c ctx id =
  Some (((entity, Some e), {| Cache_Next := next; cached := cached c |}), out).
Proof. intros Hmiss Hnext. unfold Cache_Get. now rewrite Hmiss, Hnext. Qed.

Lemma Cache_Get_miss_fill c ctx id entity next (out : list event) (m : gmap K T) :
  map_lookup (cached c) id = None ->
  cached c = made_map m ->
  Repository_Get (Cache_Next c) ctx id = Some (((entity, None), next), out) ->
  Cache_Get c ctx id =
  Some (((entity, None),
         {| Cache_Next := next; cached := made_map (<[Identifier entity := entity]> m) |}),
        out).
Proof.
  intros Hmiss Hmade Hnext. unfold Cache_Get. now rewrite Hmiss, Hnext, Hmade.
Qed.

(** On a cache whose map was never made the fill panics. *)
Lemma Cache_Get_miss_nil c ctx id entity next (out : list event) :
  cached c = nil_map ->
  Repository_Get (Cache_Next c) ctx id = Some (((entity, None), next), out) ->
  Cache_Get c ctx id = None.
Proof. intros Hnil Hnext. unfold Cache_Get. now rewrite Hnil, Hnext. Qed.

Lemma Cache_Get_miss c ctx id (res : T * option error) next (out : list event)
    (m : gmap K T) :
  map_lookup (cached c) id = None ->
  cached c = made_map m ->
  Repository_Get (Cache_Next c) ctx id = Some ((res, next), out) ->
  Cache_Get c ctx id =
  Some ((res, {| Cache_Next := next;
                 cached := made_map match res with
                                    | (entity, None) => <[Identifier entity := entity]> m
                                    | (_, Some _) => m
                                    end |}), out).
Proof.
  intros Hmiss Hmade Hnext. destruct res as [entity [e|]].
  - rewrite (Cache_Get_miss_error c ctx id entity e next out Hmiss Hnext).
    now rewrite Hmade.
  - apply Cache_Get_miss_fill; assumption.
Qed.

Lemma map_lookup_delete_eq (g : gomap K T) id : map_lookup (map_delete id g) id = None.
Proof. destruct g as [|m]; [reflexivity | apply lookup_delete_eq]. Qed.

(** C4 (amended).  [Get] on a hit returns the cached entity and leaves the
    cache and the next stage as they were, writing nothing, whatever the
    next stage would do.  On a miss it returns what the next stage's [Get]
    returned: an error is propagated and nothing is stored; an entity
    without error is stored, in a cache whose map has been made, under the
    entity's own identifier.  When the entity stored reports the identifier
    that was asked for, a later [Get] of that identifier returns it from the
    cache and leaves the next stage alone.  (In a cache whose map was never
    made nothing can be stored: the fill panics.) *)
Theorem Cache_Get_read_through :
  forall c ctx id,
    (forall entity, map_lookup (cached c) id = Some entity ->
       Cache_Get c ctx id = Some (((entity, None), c), []))
    /\ (map_lookup (cached c) id = None ->
        forall (res : T * option error) next (out : list event),
          Repository_Get (Cache_Next c) ctx id = Some ((res, next), out) ->
          (forall e, res.2 = Some e ->
             Cache_Get c ctx id =
             Some ((res, {| Cache_Next := next; cached := cached c |}), out))
          /\ (res.2 = None ->
              forall m : gmap K T, cached c = made_map m ->
              exists c' : Cache T K N,
                Cache_Get c ctx id = Some ((res, c'), out)
                /\ Cache_Next c' = next
                /\ cached c' = made_map (<[Identifier res.1 := res.1]> m)
                /\ (Identifier res.1 = id ->
                    forall ctx', Cache_Get c' ctx' id = Some (((res.1, None), c'), [])))
          /\ (res.2 = None -> cached c = nil_map -> Cache_Get c ctx id = None)).
Proof.
  intros c ctx id. split.
  - intros hit. apply Cache_Get_hit.
  - intros Hmiss [entity err] next out Hnext. simpl. split; [|split].
    + intros e ->. now apply Cache_Get_miss_error.
    + intros -> m Hmade.
      rewrite (Cache_Get_miss_fill c ctx id entity next out m Hmiss Hmade Hnext).
      eexists. split; [reflexivity|]. split; [reflexivity|]. split; [reflexivity|].
      intros Hid ctx'. apply Cache_Get_hit. simpl.
      rewrite <- Hid. apply lookup_insert_eq.
    + intros -> Hnil. exact (Cache_Get_miss_nil c ctx id entity next out Hnil Hnext).
Qed.

(** What a [Get] that finds nothing cached under [id] gives: the answer of
    the next stage, unless the fill panics. *)
Lemma Cache_Get_refetches c ctx id (res : T * option error) next (out : list event) :
  map_lookup (cached c) id = None ->
  Repository_Get (Cache_Next c) ctx id = Some ((res, next), out) ->
  (forall m : gmap K T,
     cached c = made_map m ->
     exists c' : Cache T K N,
       Cache_Get c ctx id = Some ((res, c'), out) /\ Cache_Next c' = next)
  /\ (cached c = nil_map ->
      (forall e, res.2 = Some e ->
         Cache_Get c ctx id = Some ((res, {| Cache_Next := next; cached := nil_map |}), out))
      /\ (res.2 = None -> Cache_Get c ctx id = None)).
Proof.
  intros Hmiss Hnext. split.
  - intros m Hmade. rewrite (Cache_Get_miss c ctx id res next out m Hmiss Hmade Hnext).
    eexists. split; reflexivity.
  - intros Hnil. destruct res as [entity [err|]]; simpl; split.
    + intros e [= <-].
      rewrite (Cache_Get_miss_error c ctx id entity err next out Hmiss Hnext).
      now rewrite Hnil.
    + discriminate.
    + discriminate.
    + intros _. exact (Cache_Get_miss_nil c ctx id entity next out Hnil Hnext).
Qed.

(** C5 (amended).  After a [Set] of an entity that no other call on the
    cache overlaps, the cache has no entry for the entity's identifier,
    whether the delegated write succeeded or not, and after such a [Delete]
    of an identifier it has none for that identifier.  A [Get] of that
    identifier that follows is therefore answered by the next stage, as the
    write left it, and by nothing the cache held before (in a cache whose
    map was never made that [Get] returns the next stage's error or panics
    on the fill). *)
Theorem Cache_write_invalidates :
  forall c ctx entity id,
    (forall (err : option error) next (out : list event),
       Repository_Set (Cache_Next c) ctx entity = Some ((err, next), out) ->
       exists c' : Cache T K N,
         Cache_Set c ctx entity = Some ((err, c'), out)
         /\ Cache_Next c' = next
         /\ cached c' = map_delete (Identifier entity) (cached c)
         /\ map_lookup (cached c') (Identifier entity) = None
         /\ (forall ctx' (res : T * option error) next' (out' : list event),
               Repository_Get next ctx' (Identifier entity) = Some ((res, next'), out') ->
               (forall m : gmap K T,
                  cached c = made_map m ->
                  exists c'' : Cache T K N,
                    Cache_Get c' ctx' (Identifier entity) = Some ((res, c''), out')
                    /\ Cache_Next c'' = next')
               /\ (cached c = nil_map ->
                   (forall e, res.2 = Some e ->
                      Cache_Get c' ctx' (Identifier entity) =
                      Some ((res, {| Cache_Next := next'; cached := nil_map |}), out'))
                   /\ (res.2 = None ->
                       Cache_Get c' ctx' (Identifier entity) = None))))
    /\ (forall (err : option error) next (out : list event),
          Repository_Delete (Cache_Next c) ctx id = Some ((err, next), out) ->
          exists c' : Cache T K N,
            Cache_Delete c ctx id = Some ((err, c'), out)
            /\ Cache_Next c' = next
            /\ cached c' = map_delete id (cached c)
            /\ map_lookup (cached c') id = None
            /\ (forall ctx' (res : T * option error) next' (out' : list event),
                  Repository_Get next ctx' id = Some ((res, next'), out') ->
                  (forall m : gmap K T,
                     cached c = made_map m ->
                     exists c'' : Cache T K N,
                       Cache_Get c' ctx' id = Some ((res, c''), out')
                       /\ Cache_Next c'' = next')
                  /\ (cached c = nil_map ->
                      (forall e, res.2 = Some e ->
                         Cache_Get c' ctx' id =
                         Some ((res, {| Cache_Next := next'; cached := nil_map |}), out'))
                      /\ (res.2 = None -> Cache_Get c' ctx' id = None)))).
Proof.
  assert (Hafter : forall c' k ctx' (res : T * option error) next' (out' : list event)
                          (g : gomap K T),
             cached c' = map_delete k g ->
             Repository_Get (Cache_Next c') ctx' k = Some ((res, next'), out') ->
             (forall m : gmap K T,
                g = made_map m ->
                exists c'' : Cache T K N,
                  Cache_Get c' ctx' k = Some ((res, c''), out') /\ Cache_Next c'' = next')
             /\ (g = nil_map ->
                 (forall e, res.2 = Some e ->
                    Cache_Get c' ctx' k =
                    Some ((res, {| Cache_Next := next'; cached := nil_map |}), out'))
                 /\ (res.2 = None -> Cache_Get c' ctx' k = None))).
  { intros c' k ctx' res next' out' g Hc' Hget.
    assert (Hmiss : map_lookup (cached c') k = None)
      by (rewrite Hc'; apply map_lookup_delete_eq).
    destruct (Cache_Get_refetches c' ctx' k res next' out' Hmiss Hget) as [Hmade Hnil].
    split.
    - intros m ->. apply (Hmade (delete k m)). exact Hc'.
    - intros ->. apply Hnil. exact Hc'. }
  intros c ctx entity id. split.
  - intros err next out Hset. unfold Cache_Set. rewrite Hset.
    eexists. split; [reflexivity|]. cbn [Cache_Next cached].
    split; [reflexivity|]. split; [reflexivity|].
    split; [apply map_lookup_delete_eq|].
    intros ctx' res next' out' Hget.
    apply (Hafter _ _ ctx' res next' out' (cached c)); [reflexivity | exact Hget].
  - intros err next out Hdel. unfold Cache_Delete. rewrite Hdel.
    eexists. split; [reflexivity|]. cbn [Cache_Next cached].
    split; [reflexivity|]. split; [reflexivity|].
    split; [apply map_lookup_delete_eq|].
    intros ctx' res next' out' Hget.
    apply (Hafter _ _ ctx' res next' out' (cached c)); [reflexivity | exact Hget].
Qed.

End Cache.

Import StorageFixtures StrictFixtures.

Lemma Cache_Get_read_through_witness :
  exists c' : Cache User UserID nat,
    Cache_Get {| Cache_Next := countingStub john 0; cached := make_map |} background "10" =
      Some (((john, None), c'), [])
    /\ receiver (Cache_Next c') = 1
    /\ Cache_Get c' background "10" = Some (((john, None), c'), []).
Proof.
  destruct (Cache_Get_read_through
              {| Cache_Next := countingStub john 0; cached := make_map |} background "10")
    as [_ Hmiss].
  destruct (Hmiss eq_refl (john, None) (countingStub john 1) [] eq_refl) as (_ & Hfill & _).
  destruct (Hfill eq_refl ∅ eq_refl) as (c' & Hget & Hnext & _ & Hagain).
  exists c'. split; [exact Hget|]. split; [now rewrite Hnext|].
  exact (Hagain eq_refl background).
Defined.

(** C4, as worded, fails when the entity the next stage returns reports
    another identifier than the one asked for: the first [Get "a"] succeeds
    and fills the cache under "b", and the second [Get "a"] calls the next
    stage again (its call counter goes from 1 to 2). *)
Lemma Cache_Get_again_calls_next_stage :
  Cache_Get cacheBeforeStub background "a" =
    Some (((userB, None),
           {| Cache_Next := countingStub userB 1;
              cached := made_map {[ "b" := userB ]} |}), [])
  /\ Cache_Get {| Cache_Next := countingStub userB 1;
                  cached := made_map {[ "b" := userB ]} |}
       background "a" =
     Some (((userB, None),
            {| Cache_Next := countingStub userB 2;
               cached := made_map {[ "b" := userB ]} |}), []).
Proof. split; vm_compute; reflexivity. Qed.

(** It also fails on the zero value of the cache, whose map was never made:
    the first [Get] that the next stage answers panics on the fill. *)
Lemma Cache_Get_zero_value_panics :
  Cache_Get {| Cache_Next := countingStub john 0; cached := nil_map |} background "10" =
  None.
Proof. reflexivity. Qed.

Lemma Cache_write_invalidates_witness :
  exists c' : Cache User UserID nat,
    Cache_Set cacheHoldingJohn background johnny = Some ((None, c'), [])
    /\ map_lookup (cached c') "10" = None
    /\ exists c'' : Cache User UserID nat,
         Cache_Get c' background "10" = Some (((johnny, None), c''), [])
         /\ receiver (Cache_Next c'') = 2.
Proof.
  destruct (proj1 (Cache_write_invalidates cacheHoldingJohn background johnny "10")
              None (countingStub johnny 1) [] eq_refl)
    as (c' & Hset & Hnext & _ & Hgone & Hget).
  exists c'. split; [exact Hset|]. split; [exact Hgone|].
  destruct (proj1 (Hget background (johnny, None) (countingStub johnny 2) [] eq_refl)
              {[ "10" := john ]} eq_refl)
    as (c'' & Hget' & Hnext').
  exists c''. split; [exact Hget' | now rewrite Hnext'].
Defined.

(** C5, as worded, fails when another caller's [Get] runs between the two
    parts of [Set] (the entry is dropped under the lock, the write is
    delegated after the lock is released): on a cache that holds John in
    front of a store that holds John, [Set] of the renamed user drops the
    entry; the other [Get] misses, reads John from the store and caches him
    again; the delegated write stores the renamed user and [Set] returns;
    the [Get] that follows answers John from the cache, while the store
    answers the renamed user. *)
Lemma Cache_Get_stale_after_overlapped_Set :
  Cache_Set cacheOverStoreWithJohn background johnny =
    Cache_Set_delegate (Cache_Set_locked cacheOverStoreWithJohn johnny) background johnny
  /\ Cache_Get (Cache_Set_locked cacheOverStoreWithJohn johnny) background "10" =
     Some (((john, None), cacheOverStoreWithJohn), [])
  /\ Cache_Set_delegate cacheOverStoreWithJohn background johnny =
     Some ((None, staleCacheOverStoreWithJohnny), [])
  /\ Cache_Get staleCacheOverStoreWithJohnny background "10" =
     Some (((john, None), staleCacheOverStoreWithJohnny), [])
  /\ Repository_Get (Cache_Next staleCacheOverStoreWithJohnny) background "10" =
     Some (((johnny, None), Cache_Next staleCacheOverStoreWithJohnny), []).
Proof. repeat split; vm_compute; reflexivity. Qed.

End CacheProperties.

(** ** The debug decorator and the example *)

Module DebugProperties.
Import Storage.

Section Debug.
Context {T K : Type} `{Countable K} `{!Entity T K} `{!ZeroValue T} {N : Type}.
Implicit Types (d : Debug T K N) (ctx : Context) (id : K) (entity : T)
  (next : Repository T K N).

Lemma Debug_Get_delegates d ctx id (res : T * option error) next (out : list event) :
  Repository_Get (Debug_Next d) ctx id = Some ((res, next), out) ->
  Debug_Get d ctx id =
  Some ((res, Debug_with_Next d next),
        pre_call_trace d (context_Value ctx debugEnabler) "Get" ++ out).
Proof.
  intros Hnext. unfold Debug_Get. rewrite Hnext.
  destruct (context_Value ctx debugEnabler); reflexivity.
Qed.

Lemma Debug_Set_delegates d ctx entity (err : option error) next (out : list event) :
  Repository_Set (Debug_Next d) ctx entity = Some ((err, next), out) ->
  Debug_Set d ctx entity =
  Some ((err, Debug_with_Next d next),
        pre_call_trace d (context_Value ctx debugEnabler) "Set" ++ out).
Proof.
  intros Hnext. unfold Debug_Set. rewrite Hnext.
  destruct (context_Value ctx debugEnabler); reflexivity.
Qed.

Lemma Debug_Delete_delegates d ctx id (err : option error) next (out : list event) :
  Repository_Delete (Debug_Next d) ctx id = Some ((err, next), out) ->
  Debug_Delete d ctx id =
  Some ((err, Debug_with_Next d next),
        pre_call_trace d (context_Value ctx debugEnabler) "Delete" ++ out).
Proof.
  intros Hnext. unfold Debug_Delete. rewrite Hnext.
  destruct (context_Value ctx debugEnabler); reflexivity.
Qed.

End Debug.

Import StorageFixtures.

Lemma ExampleUserRepositoryGet_events
    (json_Marshal : User -> list byte * option error)
    (json_Unmarshal : list byte -> User -> User * option error) (raw : list byte) :
  json_Marshal john = (raw, None) ->
  json_Unmarshal raw zero = (john, None) ->
  ExampleUserRepositoryGet json_Marshal json_Unmarshal = Some exampleEvents.
Proof.
  intros HM HU. vm_compute in HM, HU.
  vm_compute. rewrite HM. vm_compute. rewrite HU. vm_compute. reflexivity.
Qed.

(** C9 (amended).  A debug decorator writes one trace line
    [[DEBUG][<Label>] Pre<Operation>] to its output before delegating when
    the context's value for the debug marker is a string (any string: its
    content is ignored), and writes nothing otherwise (no binding, or a
    binding to a value that is not a string).  In both cases [Get], [Set]
    and [Delete] delegate to the next stage and return its results
    unchanged.  The example (a user set, then read twice, with debug
    enabled, on the chain telemetry, debug "CacheCall", cache, debug
    "StorageCall", store) writes PreSet for CacheCall and StorageCall, then
    PreGet for CacheCall and StorageCall, then PreGet for CacheCall only,
    provided the JSON encoding of the user decodes back to it. *)
Theorem Debug_traces_then_delegates :
  forall (T K N : Type) `{Countable K} `{!Entity T K} `{!ZeroValue T}
         (d : Debug T K N) (ctx : Context) (v : any),
    context_Value ctx debugEnabler = v ->
    (forall operation,
       (exists s, v = any_string s) ->
       pre_call_trace d v operation =
       [fmt_Fprintf (Debug_Output d) (trace_line (Debug_Label d) operation)])
    /\ (forall operation,
          (forall s, v <> any_string s) -> pre_call_trace d v operation = [])
    /\ (forall id (res : T * option error) next (out : list event),
          Repository_Get (Debug_Next d) ctx id = Some ((res, next), out) ->
          Debug_Get d ctx id =
          Some ((res, Debug_with_Next d next), pre_call_trace d v "Get" ++ out))
    /\ (forall entity (err : option error) next (out : list event),
          Repository_Set (Debug_Next d) ctx entity = Some ((err, next), out) ->
          Debug_Set d ctx entity =
          Some ((err, Debug_with_Next d next), pre_call_trace d v "Set" ++ out))
    /\ (forall id (err : option error) next (out : list event),
          Repository_Delete (Debug_Next d) ctx id = Some ((err, next), out) ->
          Debug_Delete d ctx id =
          Some ((err, Debug_with_Next d next), pre_call_trace d v "Delete" ++ out))
    /\ (forall (json_Marshal : User -> list byte * option error)
               (json_Unmarshal : list byte -> User -> User * option error)
               (raw : list byte),
          json_Marshal john = (raw, None) ->
          json_Unmarshal raw zero = (john, None) ->
          ExampleUserRepositoryGet json_Marshal json_Unmarshal = Some exampleEvents)
    /\ written_to os_Stdout exampleEvents = Some expectedOutput.
Proof.
  intros T K N ? ? ? ? d ctx v <-. repeat split.
  - intros operation [s ->]. reflexivity.
  - intros operation Hv. destruct (context_Value ctx debugEnabler); try reflexivity.
    now destruct (Hv s).
  - intros id res next out. apply Debug_Get_delegates.
  - intros entity err next out. apply Debug_Set_delegates.
  - intros id err next out. apply Debug_Delete_delegates.
  - apply ExampleUserRepositoryGet_events.
Qed.

Lemma Debug_traces_then_delegates_witness :
  context_Value (ContextWithEnabledDebug background) debugEnabler = any_string "enabled"
  /\ Debug_Get debugOverStub (ContextWithEnabledDebug background) "10" =
     Some (((john, None), Debug_with_Next debugOverStub (countingStub john 1)),
           [fmt_Fprintf os_Stdout (trace_line "CacheCall" "Get")])
  /\ ExampleUserRepositoryGet record_Marshal record_Unmarshal = Some exampleEvents.
Proof.
  split; [reflexivity|].
  destruct (Debug_traces_then_delegates User UserID nat debugOverStub
              (ContextWithEnabledDebug background) (any_string "enabled") eq_refl)
    as (_ & _ & Hget & _ & _ & Hexample & _).
  split.
  - exact (Hget "10" (john, None) (countingStub john 1) [] eq_refl).
  - apply (Hexample record_Marshal record_Unmarshal
             (list_byte_of_string ("10" +:+ newline +:+ "John"))); reflexivity.
Defined.

(** C9, as worded, fails on a context that carries the marker key with a
    value that is not a string: the key is bound, and nothing is written. *)
Lemma Debug_silent_when_marker_not_string :
  context_binds markerNotString debugEnabler = true
  /\ Debug_Get debugOverStub markerNotString "10" =
     Some (((john, None), Debug_with_Next debugOverStub (countingStub john 1)), []).
Proof. split; reflexivity. Qed.

End DebugProperties.

(** ** More on the builder *)

Module BuilderMore.
Import Middlewarebuilder BuilderTest BuilderFacts BuilderCalls.

Section Calls.
Context {T W : Type}.

Lemma apply_calls_fields (cs : list (@call T W)) (b : Builder T W) :
  factories (apply_calls b cs) = factories b ++ added cs
  /\ handler (apply_calls b cs) = last_handler cs (handler b).
Proof.
  revert b. induction cs as [|c cs IH]; intros b.
  - split; [symmetry; apply app_nil_r | reflexivity].
  - change (apply_calls b (c :: cs)) with (apply_calls (apply_call b c) cs).
    destruct (IH (apply_call b c)) as [Hf Hh]. rewrite Hf, Hh.
    destruct c as [f|h]; simpl; split; try reflexivity.
    now rewrite <- app_assoc.
Qed.

(** However the calls to [Add] and [WithHandler] are interleaved on a new
    builder, [Build] depends only on the factories added, in their order,
    and on the last handler given: earlier handlers are overwritten, and a
    handler can be given before, between or after the factories. *)
Theorem Build_after_calls :
  forall (zero : T) (cs : list (@call T W)) (w : W),
    factories (apply_calls NewBuilder cs) = added cs
    /\ handler (apply_calls NewBuilder cs) = last_handler cs None
    /\ Build zero (apply_calls NewBuilder cs) w =
       match last_handler cs None with
       | None => ((zero, Some errMissingHandler), w)
       | Some h => Factories_Create (added cs) h w
       end.
Proof.
  intros zero cs w.
  destruct (apply_calls_fields cs NewBuilder) as [Hf Hh]. simpl in Hf, Hh.
  repeat split; [exact Hf | exact Hh |].
  unfold Build. rewrite Hh, Hf. reflexivity.
Qed.

(** An error returned by [Build] is either the missing-handler error, with
    the zero value and no factory run, or the error that one factory
    returned after the factories added later had built their part without
    error; [Build] makes no other error. *)
Theorem Build_error_origin :
  forall (zero : T) (b : Builder T W) (w w' : W) (v : T) (err : error),
    Build zero b w = ((v, Some err), w') ->
    (handler b = None /\ err = errMissingHandler /\ v = zero /\ w' = w)
    \/ (exists (h : T) (pre : list (Factory T W)) (f : Factory T W)
              (post : list (Factory T W)) (inner : T) (w1 : W),
          handler b = Some h
          /\ factories b = pre ++ f :: post
          /\ Factories_Create post h w = ((inner, None), w1)
          /\ Create f inner w1 = ((v, Some err), w')).
Proof.
  intros zero b w w' v err. unfold Build.
  destruct (handler b) as [h|].
  - intros Hrun. right.
    destruct (Factories_Create_error_inv _ _ _ _ _ _ Hrun)
      as (pre & f & post & inner & w1 & Hfs & Hpost & Hf).
    exists h, pre, f, post, inner, w1. auto.
  - intros [= <- <- <-]. left. auto.
Qed.

Lemma Factories_Create_reliable (fs : list (Factory T W)) (h : T) (w : W) :
  Forall never_fails fs -> snd (fst (Factories_Create fs h w)) = None.
Proof.
  induction 1 as [|f fs Hf _ IH]; [reflexivity|].
  rewrite Factories_Create_cons.
  destruct (Factories_Create fs h w) as [[inner [e|]] w1]; [discriminate IH|].
  simpl. apply Hf.
Qed.

(** With a handler set and factories that never fail, [Build] returns no
    error. *)
Theorem Build_succeeds_with_reliable_factories :
  forall (zero : T) (b : Builder T W) (h : T) (w : W),
    handler b = Some h ->
    Forall never_fails (factories b) ->
    snd (fst (Build zero b w)) = None.
Proof.
  intros zero b h w Hh Hfs. unfold Build. rewrite Hh.
  now apply Factories_Create_reliable.
Qed.

(** Building with the factories [pre ++ post] around [h] is building with
    [post] around [h] and then, if that gave no error, with [pre] around the
    result; with no factory at all [Build] returns the handler itself. *)
Theorem Build_in_two_stages :
  forall (zero : T) (pre post : list (Factory T W)) (h : T) (w : W),
    Build zero {| factories := pre ++ post; handler := Some h |} w =
    and_then (Build zero {| factories := post; handler := Some h |} w)
             (fun inner w1 => Build zero {| factories := pre; handler := Some inner |} w1)
    /\ Build zero {| factories := []; handler := Some h |} w = ((h, None), w).
Proof.
  intros zero pre post h w. split; [|reflexivity].
  unfold Build. cbn [handler factories]. apply Factories_Create_app.
Qed.

End Calls.

Lemma Build_error_origin_witness :
  Build nilTextCreator failingBuilder tt = ((nilTextCreator, Some errExample), tt)
  /\ exists (pre : list (Factory textCreator unit)) (f : Factory textCreator unit)
            (post : list (Factory textCreator unit)),
       factories failingBuilder = pre ++ f :: post
       /\ Create f (exampleMiddleware "third" exampleHandler) tt =
          ((nilTextCreator, Some errExample), tt).
Proof.
  split; [reflexivity|].
  destruct (Build_error_origin nilTextCreator failingBuilder tt tt nilTextCreator
              errExample eq_refl)
    as [(Hnone & _) | (h & pre & f & post & inner & w1 & Hh & Hfs & Hpost & Hf)];
    [discriminate Hnone|].
  exists [exampleMiddlewareFactory "first"], failingFactory,
         [exampleMiddlewareFactory "third"].
  split; reflexivity.
Defined.

Lemma exampleMiddlewareFactory_never_fails (t : string) :
  never_fails (@exampleMiddlewareFactory unit t).
Proof. intros next w. reflexivity. Qed.

Lemma Build_succeeds_with_reliable_factories_witness :
  handler orderedBuilder = Some exampleHandler
  /\ snd (fst (Build nilTextCreator orderedBuilder tt)) = None.
Proof.
  split; [reflexivity|].
  apply (Build_succeeds_with_reliable_factories nilTextCreator orderedBuilder
           exampleHandler tt eq_refl).
  repeat constructor; apply exampleMiddlewareFactory_never_fails.
Defined.

End BuilderMore.

(** ** The HTTP handler *)

Module HttphandlerProperties.
Import Middlewarebuilder Httphandler.

(** [CreateGetUserHandler] returns no error, and the handler it returns
    serves every request by logging the method and the URL first and then
    writing the body "user"; the logging factory puts that log record before
    whatever the handler it wraps does, and a nil next handler makes the
    wrapped handler panic. *)
Theorem CreateGetUserHandler_logs_then_serves :
  snd CreateGetUserHandler = None
  /\ (forall request : Request,
        ServeHTTP (fst CreateGetUserHandler) request =
        Some [log_Printf (Method request +:+ " " +:+ URL request);
              Write (list_byte_of_string "user")])
  /\ (forall (next : Handler) (request : Request) (out : list effect),
        ServeHTTP next request = Some out ->
        ServeHTTP (fst (fst (Create loggingFactory next tt))) request =
        Some (log_Printf (Method request +:+ " " +:+ URL request) :: out))
  /\ (forall request : Request,
        ServeHTTP (fst (fst (Create loggingFactory nilHandler tt))) request = None).
Proof.
  repeat split.
  intros next request out Hnext. simpl. now rewrite Hnext.
Qed.

End HttphandlerProperties.

(** ** More on the in-memory store *)

Module StoreMore.
Import Storage StorageRuns.

Lemma string_of_list_byte_inj (b1 b2 : list byte) :
  string_of_list_byte b1 = string_of_list_byte b2 -> b1 = b2.
Proof.
  intros Heq. rewrite <- (list_byte_of_string_of_list_byte b1),
    <- (list_byte_of_string_of_list_byte b2). now rewrite Heq.
Qed.

Section Store.
Context {T K : Type} `{Countable K} `{!Entity T K} `{!ZeroValue T}.
Implicit Types (i : InMemoryRepository T K) (ctx : Context) (id : K) (entity : T).

Lemma Get_returns_receiver i ctx id :
  exists res : T * option error, InMemoryRepository_Get i ctx id = Some ((res, i), []).
Proof.
  unfold InMemoryRepository_Get.
  destruct (Serialize (identifierSerializer i) id) as [key [ke|]]; [eauto|].
  destruct (entities i !! string_of_list_byte key) as [raw|]; [|eauto].
  destruct (UnSerialize (entitySerializer i) raw) as [entity [de|]]; eauto.
Qed.

Lemma Get_found i ctx id (kb raw : list byte) (e : T) :
  Serialize (identifierSerializer i) id = (kb, None) ->
  entities i !! string_of_list_byte kb = Some raw ->
  UnSerialize (entitySerializer i) raw = (e, None) ->
  InMemoryRepository_Get i ctx id = Some (((e, None), i), []).
Proof.
  intros Hk Hraw Hde. unfold InMemoryRepository_Get. now rewrite Hk, Hraw, Hde.
Qed.

Lemma Get_found_inv i ctx id (e : T) i' (out : list event) :
  InMemoryRepository_Get i ctx id = Some (((e, None), i'), out) ->
  exists kb raw : list byte,
    Serialize (identifierSerializer i) id = (kb, None)
    /\ entities i !! string_of_list_byte kb = Some raw
    /\ UnSerialize (entitySerializer i) raw = (e, None).
Proof.
  unfold InMemoryRepository_Get.
  destruct (Serialize (identifierSerializer i) id) as [kb [ke|]] eqn:Hk;
    [discriminate|].
  destruct (entities i !! string_of_list_byte kb) as [raw|] eqn:Hraw; [|discriminate].
  destruct (UnSerialize (entitySerializer i) raw) as [ent [de|]] eqn:Hde;
    [discriminate|].
  intros [= <- <- <-]. exists kb, raw. auto.
Qed.

Lemma Get_not_found i ctx id (kb : list byte) :
  Serialize (identifierSerializer i) id = (kb, None) ->
  entities i !! string_of_list_byte kb = None ->
  InMemoryRepository_Get i ctx id = Some (((zero, Some errNotFound), i), []).
Proof. intros Hk Hraw. unfold InMemoryRepository_Get. now rewrite Hk, Hraw. Qed.

(** [Get] reads the store only at the serialized key. *)
Lemma Get_same_at_key i i' ctx id (kb : list byte) (kerr : option error) :
  identifierSerializer i' = identifierSerializer i ->
  entitySerializer i' = entitySerializer i ->
  Serialize (identifierSerializer i) id = (kb, kerr) ->
  (kerr = None ->
   entities i' !! string_of_list_byte kb = entities i !! string_of_list_byte kb) ->
  exists res : T * option error,
    InMemoryRepository_Get i ctx id = Some ((res, i), [])
    /\ InMemoryRepository_Get i' ctx id = Some ((res, i'), []).
Proof.
  intros Hids Hes Hk Hsame. unfold InMemoryRepository_Get.
  rewrite Hids, Hes, Hk. destruct kerr as [ke|]; [eauto|].
  rewrite (Hsame eq_refl).
  destruct (entities i !! string_of_list_byte kb) as [raw|]; [|eauto].
  destruct (UnSerialize (entitySerializer i) raw) as [entity [de|]]; eauto.
Qed.

Lemma Set_cases i ctx entity :
  exists (err : option error) i',
    InMemoryRepository_Set i ctx entity = Some ((err, i'), [])
    /\ identifierSerializer i' = identifierSerializer i
    /\ entitySerializer i' = entitySerializer i
    /\ ((is_Some err /\ i' = i)
        \/ (err = None /\
            exists kb raw : list byte,
              Serialize (identifierSerializer i) (Identifier entity) = (kb, None)
              /\ Serialize (entitySerializer i) entity = (raw, None)
              /\ entities i' = <[string_of_list_byte kb := raw]> (entities i))).
Proof.
  unfold InMemoryRepository_Set.
  destruct (Serialize (identifierSerializer i) (Identifier entity)) as [kb [ke|]].
  { eexists _, _. repeat split. left. eauto. }
  destruct (Serialize (entitySerializer i) entity) as [raw [re|]].
  { eexists _, _. repeat split. left. eauto. }
  eexists _, _. repeat split. right. split; [reflexivity|]. exists kb, raw. auto.
Qed.

Lemma Delete_cases i ctx id :
  exists (err : option error) i',
    InMemoryRepository_Delete i ctx id = Some ((err, i'), [])
    /\ identifierSerializer i' = identifierSerializer i
    /\ entitySerializer i' = entitySerializer i
    /\ ((is_Some err /\ i' = i)
        \/ (err = None /\
            exists kb : list byte,
              Serialize (identifierSerializer i) id = (kb, None)
              /\ entities i' = delete (string_of_list_byte kb) (entities i))).
Proof.
  unfold InMemoryRepository_Delete.
  destruct (Serialize (identifierSerializer i) id) as [kb [ke|]].
  { eexists _, _. repeat split. left. eauto. }
  eexists _, _. repeat split. right. split; [reflexivity|]. exists kb. auto.
Qed.

(** After a [Set] that serializes, a [Get] of any identifier with the same
    serialized key (the entity's own identifier, or another one that
    serializes to the same bytes) returns what the decoder makes of the bytes
    just stored: the entity itself when the decoder inverts the encoder. *)
Theorem Set_then_Get_returns_stored :
  forall i ctx ctx' entity id (kb raw : list byte) (decoded : T),
    Serialize (identifierSerializer i) (Identifier entity) = (kb, None) ->
    Serialize (entitySerializer i) entity = (raw, None) ->
    UnSerialize (entitySerializer i) raw = (decoded, None) ->
    Serialize (identifierSerializer i) id = (kb, None) ->
    exists i',
      InMemoryRepository_Set i ctx entity = Some ((None, i'), [])
      /\ InMemoryRepository_Get i' ctx' id = Some (((decoded, None), i'), []).
Proof.
  intros i ctx ctx' entity id kb raw decoded Hk Hr Hde Hid.
  unfold InMemoryRepository_Set. rewrite Hk, Hr.
  eexists. split; [reflexivity|].
  apply (Get_found _ _ _ kb raw); simpl; auto.
  apply lookup_insert_eq.
Qed.

(** After a [Delete] that serializes, and in a new store, [Get] of the
    identifier returns the not-found error and the zero entity. *)
Theorem Get_after_Delete_not_found :
  forall i ctx ctx' id (kb : list byte),
    Serialize (identifierSerializer i) id = (kb, None) ->
    (exists i',
       InMemoryRepository_Delete i ctx id = Some ((None, i'), [])
       /\ InMemoryRepository_Get i' ctx' id = Some (((zero, Some errNotFound), i'), []))
    /\ InMemoryRepository_Get
         (NewInMemoryRepository (identifierSerializer i) (entitySerializer i)) ctx' id =
       Some (((zero, Some errNotFound),
              NewInMemoryRepository (identifierSerializer i) (entitySerializer i)), []).
Proof.
  intros i ctx ctx' id kb Hk. split.
  - unfold InMemoryRepository_Delete. rewrite Hk.
    eexists. split; [reflexivity|].
    apply (Get_not_found _ _ _ kb); simpl; [exact Hk | apply lookup_delete_eq].
  - apply (Get_not_found _ _ _ kb); simpl; [exact Hk | apply lookup_empty].
Qed.

(** [Set] and [Delete] change what [Get] returns only at their own
    serialized key: for an identifier that does not serialize, or
    serializes to other bytes, [Get] returns after the write what it
    returned before. *)
Theorem writes_leave_other_keys :
  forall i ctx ctx' entity id id' (kb' : list byte) (kerr' : option error),
    Serialize (identifierSerializer i) id' = (kb', kerr') ->
    (forall (err : option error) i',
       InMemoryRepository_Set i ctx entity = Some ((err, i'), []) ->
       Serialize (identifierSerializer i) (Identifier entity) <> (kb', None) ->
       exists res : T * option error,
         InMemoryRepository_Get i ctx' id' = Some ((res, i), [])
         /\ InMemoryRepository_Get i' ctx' id' = Some ((res, i'), []))
    /\ (forall (err : option error) i',
          InMemoryRepository_Delete i ctx id = Some ((err, i'), []) ->
          Serialize (identifierSerializer i) id <> (kb', None) ->
          exists res : T * option error,
            InMemoryRepository_Get i ctx' id' = Some ((res, i), [])
            /\ InMemoryRepository_Get i' ctx' id' = Some ((res, i'), [])).
Proof.
  intros i ctx ctx' entity id id' kb' kerr' Hk'. split.
  - intros err i' Hset Hne.
    destruct (Set_cases i ctx entity) as (err0 & i0 & Hset0 & Hids & Hes & Hcase).
    rewrite Hset in Hset0. injection Hset0 as <- <-.
    apply (Get_same_at_key i i' ctx' id' kb' kerr' Hids Hes Hk').
    intros ->. destruct Hcase as [[_ ->]|(_ & kb & raw & Hkb & _ & ->)]; [reflexivity|].
    apply lookup_insert_ne. intros Heq. apply string_of_list_byte_inj in Heq.
    subst kb. contradiction.
  - intros err i' Hdel Hne.
    destruct (Delete_cases i ctx id) as (err0 & i0 & Hdel0 & Hids & Hes & Hcase).
    rewrite Hdel in Hdel0. injection Hdel0 as <- <-.
    apply (Get_same_at_key i i' ctx' id' kb' kerr' Hids Hes Hk').
    intros ->. destruct Hcase as [[_ ->]|(_ & kb & Hkb & ->)]; [reflexivity|].
    apply lookup_delete_ne. intros Heq. apply string_of_list_byte_inj in Heq.
    subst kb. contradiction.
Qed.

(** On one serialized key the later write decides: a [Set] followed by a
    [Set] leaves the store as the second [Set] alone does, and a [Set]
    followed by a [Delete] leaves it as the [Delete] alone does. *)
Theorem later_write_supersedes :
  forall i ctx entity1 entity2 id (kb raw1 raw2 : list byte) i1,
    Serialize (identifierSerializer i) (Identifier entity1) = (kb, None) ->
    Serialize (entitySerializer i) entity1 = (raw1, None) ->
    InMemoryRepository_Set i ctx entity1 = Some ((None, i1), []) ->
    (Serialize (identifierSerializer i) (Identifier entity2) = (kb, None) ->
     Serialize (entitySerializer i) entity2 = (raw2, None) ->
     InMemoryRepository_Set i1 ctx entity2 = InMemoryRepository_Set i ctx entity2)
    /\ (Serialize (identifierSerializer i) id = (kb, None) ->
        InMemoryRepository_Delete i1 ctx id = InMemoryRepository_Delete i ctx id).
Proof.
  intros i ctx entity1 entity2 id kb raw1 raw2 i1 Hk1 Hr1 Hset1.
  unfold InMemoryRepository_Set in Hset1. rewrite Hk1, Hr1 in Hset1.
  injection Hset1 as <-. split.
  - intros Hk2 Hr2. unfold InMemoryRepository_Set. simpl. rewrite Hk2, Hr2.
    unfold InMemoryRepository_with_entities. simpl. now rewrite insert_insert_eq.
  - intros Hk. unfold InMemoryRepository_Delete. simpl. rewrite Hk.
    unfold InMemoryRepository_with_entities. simpl. now rewrite delete_insert_eq.
Qed.

(** Every error that the store returns is the not-found error itself or
    wraps the error of a serializer: [errors.Is] finds that cause, and the
    text of the error is the store's prefix followed by the cause's text. *)
Theorem store_errors_keep_their_cause :
  forall i ctx id entity,
    (forall (v : T) (err : error) i' (out : list event),
       InMemoryRepository_Get i ctx id = Some (((v, Some err), i'), out) ->
       err = errNotFound
       \/ (exists (cause : error) (kb : list byte),
             Serialize (identifierSerializer i) id = (kb, Some cause)
             /\ errors_Is err cause = true
             /\ Error err = "unable to serialize identifier: " +:+ Error cause)
       \/ (exists (cause : error) (raw : list byte),
             UnSerialize (entitySerializer i) raw = (v, Some cause)
             /\ errors_Is err cause = true
             /\ Error err = "unable to unserialize entity: " +:+ Error cause))
    /\ (forall (err : error) i' (out : list event),
          InMemoryRepository_Set i ctx entity = Some ((Some err, i'), out) ->
          (exists (cause : error) (kb : list byte),
             Serialize (identifierSerializer i) (Identifier entity) = (kb, Some cause)
             /\ errors_Is err cause = true
             /\ Error err = "unable to serialize identifier: " +:+ Error cause)
          \/ (exists (cause : error) (raw : list byte),
                Serialize (entitySerializer i) entity = (raw, Some cause)
                /\ errors_Is err cause = true
                /\ Error err = "unable to serialize entity: " +:+ Error cause))
    /\ (forall (err : error) i' (out : list event),
          InMemoryRepository_Delete i ctx id = Some ((Some err, i'), out) ->
          exists (cause : error) (kb : list byte),
            Serialize (identifierSerializer i) id = (kb, Some cause)
            /\ errors_Is err cause = true
            /\ Error err = "unable to serialize identifier: " +:+ Error cause).
Proof.
  intros i ctx id entity. repeat split.
  - intros v err i' out. unfold InMemoryRepository_Get.
    destruct (Serialize (identifierSerializer i) id) as [kb [ke|]].
    { intros [= <- <- <- <-]. right. left. exists ke, kb.
      repeat split. apply errors_Is_wrapped, errors_Is_refl. }
    destruct (entities i !! string_of_list_byte kb) as [raw|].
    2:{ intros [= <- <- <- <-]. now left. }
    destruct (UnSerialize (entitySerializer i) raw) as [ent [de|]] eqn:Hde;
      [|discriminate].
    intros [= <- <- <- <-]. right. right. exists de, raw.
    repeat split; [exact Hde | apply errors_Is_wrapped, errors_Is_refl].
  - intros err i' out. unfold InMemoryRepository_Set.
    destruct (Serialize (identifierSerializer i) (Identifier entity)) as [kb [ke|]].
    { intros [= <- <- <-]. left. exists ke, kb.
      repeat split. apply errors_Is_wrapped, errors_Is_refl. }
    destruct (Serialize (entitySerializer i) entity) as [raw [re|]]; [|discriminate].
    intros [= <- <- <-]. right. exists re, raw.
    repeat split. apply errors_Is_wrapped, errors_Is_refl.
  - intros err i' out. unfold InMemoryRepository_Delete.
    destruct (Serialize (identifierSerializer i) id) as [kb [ke|]]; [|discriminate].
    intros [= <- <- <-]. exists ke, kb.
    repeat split. apply errors_Is_wrapped, errors_Is_refl.
Qed.

End Store.

Lemma userIDSerializer_injective : identifiers_injective userIDSerializer.
Proof.
  intros k1 k2 b [= H1] [= H2].
  rewrite <- (string_of_list_byte_of_string k1),
    <- (string_of_list_byte_of_string k2). congruence.
Qed.

(** The serializer of user identifiers never fails, decodes what it
    encodes and encodes what it decodes, and sends different identifiers to
    different bytes. *)
Theorem userIDSerializer_round_trip :
  (forall t : UserID,
     exists b : list byte,
       Serialize userIDSerializer t = (b, None)
       /\ UnSerialize userIDSerializer b = (t, None))
  /\ (forall b : list byte,
        exists t : UserID,
          UnSerialize userIDSerializer b = (t, None)
          /\ Serialize userIDSerializer t = (b, None))
  /\ identifiers_injective userIDSerializer.
Proof.
  repeat split.
  - intros t. eexists. split; [reflexivity|]. simpl.
    now rewrite string_of_list_byte_of_string.
  - intros b. eexists. split; [reflexivity|]. simpl.
    now rewrite list_byte_of_string_of_list_byte.
  - apply userIDSerializer_injective.
Qed.

Import StorageFixtures StrictFixtures.

Lemma Set_then_Get_returns_stored_witness :
  exists i' : InMemoryRepository User UserID,
    InMemoryRepository_Set emptyStore background john = Some ((None, i'), [])
    /\ InMemoryRepository_Get i' background "10" = Some (((john, None), i'), []).
Proof.
  apply (Set_then_Get_returns_stored emptyStore background background john "10"
           (list_byte_of_string "10")
           (list_byte_of_string ("10" +:+ newline +:+ "John")) john);
    reflexivity.
Defined.

Lemma Get_after_Delete_not_found_witness :
  exists i' : InMemoryRepository User UserID,
    InMemoryRepository_Delete storeWithJohn background "10" = Some ((None, i'), [])
    /\ InMemoryRepository_Get i' background "10" =
       Some (((zero, Some errNotFound), i'), []).
Proof.
  apply (proj1 (Get_after_Delete_not_found storeWithJohn background background "10"
                  (list_byte_of_string "10") eq_refl)).
Defined.

Lemma writes_leave_other_keys_witness :
  exists (i' : InMemoryRepository User UserID) (res : User * option error),
    InMemoryRepository_Set storeWithJohn background mary = Some ((None, i'), [])
    /\ InMemoryRepository_Get storeWithJohn background "10" =
       Some ((res, storeWithJohn), [])
    /\ InMemoryRepository_Get i' background "10" = Some ((res, i'), []).
Proof.
  assert (Hset : exists i', InMemoryRepository_Set storeWithJohn background mary =
                            Some ((None, i'), [])) by (eexists; reflexivity).
  destruct Hset as [i' Hset].
  destruct (proj1 (writes_leave_other_keys storeWithJohn background background mary
                     "11" "10" (list_byte_of_string "10") None eq_refl)
              None i' Hset) as (res & Hbefore & Hafter).
  - intros Heq. vm_compute in Heq. discriminate Heq.
  - exists i', res. auto.
Defined.

Lemma later_write_supersedes_witness :
  exists i1 : InMemoryRepository User UserID,
    InMemoryRepository_Set emptyStore background john = Some ((None, i1), [])
    /\ InMemoryRepository_Set i1 background johnny =
       InMemoryRepository_Set emptyStore background johnny
    /\ InMemoryRepository_Delete i1 background "10" =
       InMemoryRepository_Delete emptyStore background "10".
Proof.
  assert (Hset : exists i1, InMemoryRepository_Set emptyStore background john =
                            Some ((None, i1), [])) by (eexists; reflexivity).
  destruct Hset as [i1 Hset]. exists i1. split; [exact Hset|].
  destruct (later_write_supersedes emptyStore background john johnny "10"
              (list_byte_of_string "10")
              (list_byte_of_string ("10" +:+ newline +:+ "John"))
              (list_byte_of_string ("10" +:+ newline +:+ "Johnny")) i1)
    as [Hsecond Hdelete]; [reflexivity | reflexivity | exact Hset |].
  split; [apply Hsecond; reflexivity | apply Hdelete; reflexivity].
Defined.

End StoreMore.

(** ** More on the decorators *)

Module DecoratorsMore.
Import Storage StorageRuns DebugProperties CacheProperties StoreMore.

Lemma context_Value_unbound (ctx : Context) (key : ctxKey) :
  context_binds ctx key = false -> context_Value ctx key = any_nil.
Proof.
  induction ctx as [|parent IH k val]; simpl; [reflexivity|].
  destruct (decide (k = key)); [discriminate | exact IH].
Qed.

(** A record logged after other events adds nothing to what the writers
    other than [os.Stderr] received. *)
Lemma written_to_log_last (w : Writer) (evs : list event) (text : string) :
  w <> os_Stderr -> written_to w (evs ++ [log_Printf text]) = written_to w evs.
Proof.
  intros Hw. induction evs as [|[w' t|t] evs IH]; simpl.
  - destruct (decide (w = os_Stderr)); [contradiction | reflexivity].
  - destruct (decide (w' = w)); now rewrite IH.
  - destruct (decide (w = os_Stderr)); [contradiction | exact IH].
Qed.

(** It goes to [os.Stderr]. *)
Lemma written_to_Stderr_log_last (evs : list event) (text : string) :
  written_to os_Stderr (evs ++ [log_Printf text]) = None.
Proof.
  induction evs as [|[w' t|t] evs IH]; simpl; [reflexivity| |reflexivity].
  destruct (decide (w' = os_Stderr)); now rewrite IH.
Qed.

Section Decorators.
Context {T K : Type} `{Countable K} `{!Entity T K} `{!ZeroValue T} {N : Type}.
Implicit Types (ctx : Context) (id : K) (entity : T) (next : Repository T K N).

(** [ContextWithEnabledDebug] turns the trace on whatever the parent context
    binds, even a marker that is not a string; it leaves the values of all
    other keys as they were, and later bindings of other keys, also of a
    plain key with the text "debug", do not turn the trace off. *)
Theorem ContextWithEnabledDebug_enables :
  forall (d : Debug T K N) ctx id (res : T * option error) next (out : list event),
    Repository_Get (Debug_Next d) (ContextWithEnabledDebug ctx) id =
      Some ((res, next), out) ->
    Debug_Get d (ContextWithEnabledDebug ctx) id =
      Some ((res, Debug_with_Next d next),
            fmt_Fprintf (Debug_Output d) (trace_line (Debug_Label d) "Get") :: out)
    /\ (forall key, key <> debugEnabler ->
          context_Value (ContextWithEnabledDebug ctx) key = context_Value ctx key)
    /\ (forall (s : string) (v : any),
          context_Value (context_WithValue (ContextWithEnabledDebug ctx) (otherCtxKey s) v)
            debugEnabler = any_string "enabled").
Proof.
  intros d ctx id res next out Hnext. split; [|split].
  - rewrite (Debug_Get_delegates d _ id res next out Hnext). reflexivity.
  - intros key Hne. simpl. destruct (decide (debugEnabler = key)); congruence.
  - intros s v. reflexivity.
Qed.

(** On a context in which nothing binds the debug marker (the background
    context, or one that only binds other keys) a debug decorator writes
    nothing: each call returns exactly what the next stage returns and
    emits exactly what the next stage emits. *)
Theorem Debug_silent_without_marker :
  forall (d : Debug T K N) ctx,
    context_binds ctx debugEnabler = false ->
    (forall id (res : T * option error) next (out : list event),
       Repository_Get (Debug_Next d) ctx id = Some ((res, next), out) ->
       Debug_Get d ctx id = Some ((res, Debug_with_Next d next), out))
    /\ (forall entity (err : option error) next (out : list event),
          Repository_Set (Debug_Next d) ctx entity = Some ((err, next), out) ->
          Debug_Set d ctx entity = Some ((err, Debug_with_Next d next), out))
    /\ (forall id (err : option error) next (out : list event),
          Repository_Delete (Debug_Next d) ctx id = Some ((err, next), out) ->
          Debug_Delete d ctx id = Some ((err, Debug_with_Next d next), out)).
Proof.
  intros d ctx Hunbound. apply context_Value_unbound in Hunbound.
  split; [|split].
  - intros id res next out Hnext.
    rewrite (Debug_Get_delegates d ctx id res next out Hnext), Hunbound. reflexivity.
  - intros entity err next out Hnext.
    rewrite (Debug_Set_delegates d ctx entity err next out Hnext), Hunbound. reflexivity.
  - intros id err next out Hnext.
    rewrite (Debug_Delete_delegates d ctx id err next out Hnext), Hunbound. reflexivity.
Qed.

(** A telemetry decorator returns what the next stage returns, for each of
    the three calls; it gives the standard logger one record, named after the
    call, after everything the next stage emitted.  The record goes to the
    logger's output, [os.Stderr]; what every other writer received is what
    the next stage wrote. *)
Theorem Telemetry_reports_after_delegating :
  forall (t : Telemetry T K N) ctx,
    (forall id (res : T * option error) next (out : list event),
       Repository_Get (Telemetry_Next t) ctx id = Some ((res, next), out) ->
       Telemetry_Get t ctx id =
         Some ((res, {| Telemetry_Next := next |}), out ++ [log_Printf "Get: "])
       /\ (forall w, w <> os_Stderr ->
             written_to w (out ++ [log_Printf "Get: "]) = written_to w out)
       /\ written_to os_Stderr (out ++ [log_Printf "Get: "]) = None)
    /\ (forall entity (err : option error) next (out : list event),
          Repository_Set (Telemetry_Next t) ctx entity = Some ((err, next), out) ->
          Telemetry_Set t ctx entity =
            Some ((err, {| Telemetry_Next := next |}), out ++ [log_Printf "Set: "])
          /\ (forall w, w <> os_Stderr ->
                written_to w (out ++ [log_Printf "Set: "]) = written_to w out)
          /\ written_to os_Stderr (out ++ [log_Printf "Set: "]) = None)
    /\ (forall id (err : option error) next (out : list event),
          Repository_Delete (Telemetry_Next t) ctx id = Some ((err, next), out) ->
          Telemetry_Delete t ctx id =
            Some ((err, {| Telemetry_Next := next |}), out ++ [log_Printf "Delete: "])
          /\ (forall w, w <> os_Stderr ->
                written_to w (out ++ [log_Printf "Delete: "]) = written_to w out)
          /\ written_to os_Stderr (out ++ [log_Printf "Delete: "]) = None).
Proof.
  intros t ctx. split; [|split].
  - intros id res next out Hnext.
    split; [unfold Telemetry_Get; now rewrite Hnext|].
    split; [intros w; apply written_to_log_last | apply written_to_Stderr_log_last].
  - intros entity err next out Hnext.
    split; [unfold Telemetry_Set; now rewrite Hnext|].
    split; [intros w; apply written_to_log_last | apply written_to_Stderr_log_last].
  - intros id err next out Hnext.
    split; [unfold Telemetry_Delete; now rewrite Hnext|].
    split; [intros w; apply written_to_log_last | apply written_to_Stderr_log_last].
Qed.

End Decorators.
End DecoratorsMore.

(** ** More on the cache *)

Module CacheMore.
Import Storage StorageRuns CacheProperties.

Section Cache.
Context {T K : Type} `{Countable K} `{!Entity T K} `{!ZeroValue T} {N : Type}.
Implicit Types (c : Cache T K N) (ctx : Context) (id : K) (entity : T).

Lemma keyed_by_identifier_store (g g' : gomap K T) entity :
  keyed_by_identifier g ->
  map_store (Identifier entity) entity g = Some g' ->
  keyed_by_identifier g'.
Proof.
  destruct g as [|m]; [discriminate|]. intros Hm [= <-] k e. simpl.
  rewrite lookup_insert. case_decide as Hk.
  - intros [= <-]. exact Hk.
  - apply Hm.
Qed.

Lemma keyed_by_identifier_delete (g : gomap K T) id :
  keyed_by_identifier g -> keyed_by_identifier (map_delete id g).
Proof.
  destruct g as [|m]; [trivial|]. intros Hm k e. simpl.
  rewrite lookup_delete. case_decide; [discriminate | apply Hm].
Qed.

Lemma Cache_Get_keeps_keyed c ctx id (res : T * option error) c' (out : list event) :
  keyed_by_identifier (cached c) ->
  Cache_Get c ctx id = Some ((res, c'), out) ->
  keyed_by_identifier (cached c').
Proof.
  intros Hc. unfold Cache_Get.
  destruct (map_lookup (cached c) id) as [e|]; [now intros [= <- <- <-]|].
  destruct (Repository_Get (Cache_Next c) ctx id)
    as [[[[entity [err|]] next] out']|]; [| |discriminate].
  - intros [= <- <- <-]. exact Hc.
  - destruct (map_store (Identifier entity) entity (cached c)) as [g'|] eqn:Hstore;
      [|discriminate].
    intros [= <- <- <-]. exact (keyed_by_identifier_store _ g' entity Hc Hstore).
Qed.

Lemma Cache_Set_keeps_keyed c ctx entity (err : option error) c' (out : list event) :
  keyed_by_identifier (cached c) ->
  Cache_Set c ctx entity = Some ((err, c'), out) ->
  keyed_by_identifier (cached c').
Proof.
  intros Hc. unfold Cache_Set.
  destruct (Repository_Set (Cache_Next c) ctx entity) as [[[err' next] out']|];
    [|discriminate].
  intros [= <- <- <-]. now apply keyed_by_identifier_delete.
Qed.

Lemma Cache_Delete_keeps_keyed c ctx id (err : option error) c' (out : list event) :
  keyed_by_identifier (cached c) ->
  Cache_Delete c ctx id = Some ((err, c'), out) ->
  keyed_by_identifier (cached c').
Proof.
  intros Hc. unfold Cache_Delete.
  destruct (Repository_Delete (Cache_Next c) ctx id) as [[[err' next] out']|];
    [|discriminate].
  intros [= <- <- <-]. now apply keyed_by_identifier_delete.
Qed.

(** A cache whose entries all sit under the identifier they report keeps
    that property through every sequence of [Get], [Set] and [Delete],
    whatever the next stage returns; in such a cache a hit returns an entity
    that reports the identifier asked for.  The cache over a newly made map
    has the property. *)
Theorem Cache_entries_stay_keyed_by_identifier :
  forall c (ops : list (operation T K)) (answers : list (answer T))
         (r' : Repository T K (Cache T K N)),
    keyed_by_identifier (cached c) ->
    run (cache_repository c) ops = Some (answers, r') ->
    keyed_by_identifier (cached (receiver r'))
    /\ (forall ctx id (e : T),
          map_lookup (cached (receiver r')) id = Some e ->
          Cache_Get (receiver r') ctx id = Some (((e, None), receiver r'), [])
          /\ Identifier e = id)
    /\ keyed_by_identifier (make_map : gomap K T).
Proof.
  intros c ops answers r' Hc Hrun.
  assert (Hkeyed : keyed_by_identifier (cached (receiver r'))).
  { revert c answers r' Hc Hrun.
    induction ops as [|op ops IH]; intros c answers r' Hc.
    - intros [= <- <-]. exact Hc.
    - destruct op as [ctx id|ctx entity|ctx id]; simpl;
        unfold Repository_Get, Repository_Set, Repository_Delete; simpl.
      + destruct (Cache_Get c ctx id) as [[[[e err] c1] out]|] eqn:Hget;
          [simpl|discriminate].
        destruct (run _ ops) as [[answers' r'']|] eqn:Hrest; [|discriminate].
        intros [= <- <-].
        apply (IH c1 answers' r''); [|exact Hrest].
        exact (Cache_Get_keeps_keyed c ctx id _ c1 out Hc Hget).
      + destruct (Cache_Set c ctx entity) as [[[err c1] out]|] eqn:Hset;
          [simpl|discriminate].
        destruct (run _ ops) as [[answers' r'']|] eqn:Hrest; [|discriminate].
        intros [= <- <-].
        apply (IH c1 answers' r''); [|exact Hrest].
        exact (Cache_Set_keeps_keyed c ctx entity err c1 out Hc Hset).
      + destruct (Cache_Delete c ctx id) as [[[err c1] out]|] eqn:Hdel;
          [simpl|discriminate].
        destruct (run _ ops) as [[answers' r'']|] eqn:Hrest; [|discriminate].
        intros [= <- <-].
        apply (IH c1 answers' r''); [|exact Hrest].
        exact (Cache_Delete_keeps_keyed c ctx id err c1 out Hc Hdel). }
  split; [exact Hkeyed|]. split.
  - intros ctx id e Hhit. split; [now apply Cache_Get_hit | now apply Hkeyed].
  - intros k e. simpl. rewrite lookup_empty. discriminate.
Qed.

Lemma map_lookup_store_ne (g g' : gomap K T) (k k' : K) (v : T) :
  map_store k v g = Some g' -> k' <> k -> map_lookup g' k' = map_lookup g k'.
Proof.
  destruct g as [|m]; [discriminate|]. intros [= <-] Hk. simpl.
  apply lookup_insert_ne. congruence.
Qed.

Lemma map_lookup_delete_ne (g : gomap K T) (k k' : K) :
  k' <> k -> map_lookup (map_delete k g) k' = map_lookup g k'.
Proof.
  intros Hk. destruct g as [|m]; [reflexivity|]. simpl.
  apply lookup_delete_ne. congruence.
Qed.

(** Each call on a cache touches at most one of its entries: [Get] the one
    under the identifier of the entity it returns, [Set] the one under the
    entity's identifier, [Delete] the one under the identifier given. *)
Theorem Cache_touches_one_entry :
  forall c ctx,
    (forall id entity (err : option error) c' (out : list event),
       Cache_Get c ctx id = Some (((entity, err), c'), out) ->
       forall k, k <> Identifier entity ->
         map_lookup (cached c') k = map_lookup (cached c) k)
    /\ (forall entity (err : option error) c' (out : list event),
          Cache_Set c ctx entity = Some ((err, c'), out) ->
          forall k, k <> Identifier entity ->
            map_lookup (cached c') k = map_lookup (cached c) k)
    /\ (forall id (err : option error) c' (out : list event),
          Cache_Delete c ctx id = Some ((err, c'), out) ->
          forall k, k <> id -> map_lookup (cached c') k = map_lookup (cached c) k).
Proof.
  intros c ctx. split; [|split].
  - intros id entity err c' out. unfold Cache_Get.
    destruct (map_lookup (cached c) id) as [e|]; [now intros [= <- <- <- <-]|].
    destruct (Repository_Get (Cache_Next c) ctx id)
      as [[[[entity' [err'|]] next] out']|]; [| |discriminate].
    + now intros [= <- <- <- <-].
    + destruct (map_store (Identifier entity') entity' (cached c)) as [g'|] eqn:Hstore;
        [|discriminate].
      intros [= <- <- <- <-] k Hk. simpl.
      exact (map_lookup_store_ne _ g' _ k _ Hstore Hk).
  - intros entity err c' out. unfold Cache_Set.
    destruct (Repository_Set (Cache_Next c) ctx entity) as [[[err' next] out']|];
      [|discriminate].
    intros [= <- <- <-] k Hk. simpl. now apply map_lookup_delete_ne.
  - intros id err c' out. unfold Cache_Delete.
    destruct (Repository_Delete (Cache_Next c) ctx id) as [[[err' next] out']|];
      [|discriminate].
    intros [= <- <- <-] k Hk. simpl. now apply map_lookup_delete_ne.
Qed.

End Cache.
End CacheMore.

(** ** Decorators do not change the answers *)

Module Transparency.
Import Storage StorageRuns DebugProperties CacheProperties StoreMore.

Section Layers.
Context {T K : Type} `{Countable K} `{!Entity T K} `{!ZeroValue T}.

Lemma sets_only_any (ops : list (operation T K)) : sets_only (fun _ => True) ops.
Proof. induction ops as [|[ctx id|ctx entity|ctx id] ops IH]; constructor; trivial. Qed.

(** Related repositories give the same answers to every sequence of calls
    that sets only entities of [P]. *)
Lemma run_simulation {N1 N2 : Type} (P : T -> Prop)
    (R : Repository T K N1 -> Repository T K N2 -> Prop) :
  simulation P R ->
  forall (ops : list (operation T K)) r1 r2,
    sets_only P ops ->
    R r1 r2 -> answers_of (run r1 ops) = answers_of (run r2 ops).
Proof.
  intros HR. induction ops as [|op ops IH]; intros r1 r2 Hops HR12; [reflexivity|].
  apply Forall_cons in Hops as [Hop Hops].
  destruct op as [ctx id|ctx entity|ctx id]; simpl.
  - pose proof (sim_Get P R HR r1 r2 ctx id HR12) as Hag. unfold agree in Hag.
    destruct (Repository_Get r1 ctx id) as [[[[e1 err1] r1'] o1]|],
             (Repository_Get r2 ctx id) as [[[[e2 err2] r2'] o2]|];
      try contradiction; [|reflexivity].
    destruct Hag as [[= -> ->] HR']. specialize (IH r1' r2' Hops HR').
    destruct (run r1' ops) as [[as1 ?]|], (run r2' ops) as [[as2 ?]|];
      simpl in *; congruence.
  - pose proof (sim_Set P R HR r1 r2 ctx entity Hop HR12) as Hag. unfold agree in Hag.
    destruct (Repository_Set r1 ctx entity) as [[[err1 r1'] o1]|],
             (Repository_Set r2 ctx entity) as [[[err2 r2'] o2]|];
      try contradiction; [|reflexivity].
    destruct Hag as [-> HR']. specialize (IH r1' r2' Hops HR').
    destruct (run r1' ops) as [[as1 ?]|], (run r2' ops) as [[as2 ?]|];
      simpl in *; congruence.
  - pose proof (sim_Delete P R HR r1 r2 ctx id HR12) as Hag. unfold agree in Hag.
    destruct (Repository_Delete r1 ctx id) as [[[err1 r1'] o1]|],
             (Repository_Delete r2 ctx id) as [[[err2 r2'] o2]|];
      try contradiction; [|reflexivity].
    destruct Hag as [-> HR']. specialize (IH r1' r2' Hops HR').
    destruct (run r1' ops) as [[as1 ?]|], (run r2' ops) as [[as2 ?]|];
      simpl in *; congruence.
Qed.

Lemma debug_layer_simulation (P : T -> Prop) (N : Type) :
  simulation P (@debug_layer T K N).
Proof.
  constructor.
  - intros r1 r2 ctx id (d & -> & ->).
    change (Repository_Get (debug_repository d) ctx id)
      with (after_call (debug_repository d) (Debug_Get d ctx id)).
    destruct (Repository_Get (Debug_Next d) ctx id) as [[[res next] out]|] eqn:Hnext.
    + rewrite (Debug_Get_delegates d ctx id res next out Hnext). simpl.
      split; [reflexivity|]. exists (Debug_with_Next d next). split; reflexivity.
    + unfold Debug_Get. rewrite Hnext.
      destruct (assert_string (context_Value ctx debugEnabler)). exact I.
  - intros r1 r2 ctx entity _ (d & -> & ->).
    change (Repository_Set (debug_repository d) ctx entity)
      with (after_call (debug_repository d) (Debug_Set d ctx entity)).
    destruct (Repository_Set (Debug_Next d) ctx entity) as [[[err next] out]|] eqn:Hnext.
    + rewrite (Debug_Set_delegates d ctx entity err next out Hnext). simpl.
      split; [reflexivity|]. exists (Debug_with_Next d next). split; reflexivity.
    + unfold Debug_Set. rewrite Hnext.
      destruct (assert_string (context_Value ctx debugEnabler)). exact I.
  - intros r1 r2 ctx id (d & -> & ->).
    change (Repository_Delete (debug_repository d) ctx id)
      with (after_call (debug_repository d) (Debug_Delete d ctx id)).
    destruct (Repository_Delete (Debug_Next d) ctx id) as [[[err next] out]|] eqn:Hnext.
    + rewrite (Debug_Delete_delegates d ctx id err next out Hnext). simpl.
      split; [reflexivity|]. exists (Debug_with_Next d next). split; reflexivity.
    + unfold Debug_Delete. rewrite Hnext.
      destruct (assert_string (context_Value ctx debugEnabler)). exact I.
Qed.

Lemma telemetry_layer_simulation (P : T -> Prop) (N : Type) :
  simulation P (@telemetry_layer T K N).
Proof.
  constructor.
  - intros r1 r2 ctx id (t & -> & ->).
    change (Repository_Get (telemetry_repository t) ctx id)
      with (after_call (telemetry_repository t) (Telemetry_Get t ctx id)).
    unfold Telemetry_Get.
    destruct (Repository_Get (Telemetry_Next t) ctx id) as [[[res next] out]|];
      [|exact I].
    simpl. split; [reflexivity|]. eexists. split; reflexivity.
  - intros r1 r2 ctx entity _ (t & -> & ->).
    change (Repository_Set (telemetry_repository t) ctx entity)
      with (after_call (telemetry_repository t) (Telemetry_Set t ctx entity)).
    unfold Telemetry_Set.
    destruct (Repository_Set (Telemetry_Next t) ctx entity) as [[[err next] out]|];
      [|exact I].
    simpl. split; [reflexivity|]. eexists. split; reflexivity.
  - intros r1 r2 ctx id (t & -> & ->).
    change (Repository_Delete (telemetry_repository t) ctx id)
      with (after_call (telemetry_repository t) (Telemetry_Delete t ctx id)).
    unfold Telemetry_Delete.
    destruct (Repository_Delete (Telemetry_Next t) ctx id) as [[[err next] out]|];
      [|exact I].
    simpl. split; [reflexivity|]. eexists. split; reflexivity.
Qed.

Lemma store_Get_call (i : InMemoryRepository T K) (ctx : Context) (id : K)
    (res : T * option error) :
  InMemoryRepository_Get i ctx id = Some ((res, i), []) ->
  Repository_Get (store_repository i) ctx id = Some ((res, store_repository i), []).
Proof. intros Hget. unfold Repository_Get. simpl. now rewrite Hget. Qed.

Lemma store_Set_call (i i' : InMemoryRepository T K) (ctx : Context) (entity : T)
    (err : option error) :
  InMemoryRepository_Set i ctx entity = Some ((err, i'), []) ->
  Repository_Set (store_repository i) ctx entity = Some ((err, store_repository i'), []).
Proof. intros Hset. unfold Repository_Set. simpl. now rewrite Hset. Qed.

Lemma store_Delete_call (i i' : InMemoryRepository T K) (ctx : Context) (id : K)
    (err : option error) :
  InMemoryRepository_Delete i ctx id = Some ((err, i'), []) ->
  Repository_Delete (store_repository i) ctx id = Some ((err, store_repository i'), []).
Proof. intros Hdel. unfold Repository_Delete. simpl. now rewrite Hdel. Qed.

(** An insertion under the key of the entity's own identifier keeps the
    store fit. *)
Lemma store_fit_insert (P : T -> Prop) (i i' : InMemoryRepository T K) (entity : T)
    (kb raw : list byte) :
  store_fit_on P i ->
  P entity ->
  identifierSerializer i' = identifierSerializer i ->
  entitySerializer i' = entitySerializer i ->
  Serialize (identifierSerializer i) (Identifier entity) = (kb, None) ->
  Serialize (entitySerializer i) entity = (raw, None) ->
  entities i' = <[string_of_list_byte kb := raw]> (entities i) ->
  store_fit_on P i'.
Proof.
  intros (Hinj & Hrt & Hwk) HP Hids Hes Hk Hr Hent.
  unfold store_fit_on. rewrite Hids, Hes. split; [exact Hinj|]. split; [exact Hrt|].
  intros key raw0 e. rewrite Hent, Hids, Hes, lookup_insert. case_decide as Hkey.
  - intros [= <-] Hde. rewrite (Hrt entity raw HP Hr) in Hde. injection Hde as <-.
    exists kb. auto.
  - apply Hwk.
Qed.

Lemma store_fit_delete (P : T -> Prop) (i i' : InMemoryRepository T K) (key : string) :
  store_fit_on P i ->
  identifierSerializer i' = identifierSerializer i ->
  entitySerializer i' = entitySerializer i ->
  entities i' = delete key (entities i) ->
  store_fit_on P i'.
Proof.
  intros (Hinj & Hrt & Hwk) Hids Hes Hent.
  unfold store_fit_on. rewrite Hids, Hes. split; [exact Hinj|]. split; [exact Hrt|].
  intros key0 raw0 e. rewrite Hent, Hids, Hes, lookup_delete.
  case_decide; [discriminate | apply Hwk].
Qed.

(** Dropping the cache entry of an identifier keeps the cache coherent with
    a store that changed only at the key of that identifier. *)
Lemma cache_coherent_after_write (m : gmap K T) (i i' : InMemoryRepository T K)
    (id : K) :
  identifiers_injective (identifierSerializer i) ->
  cache_coherent m i ->
  identifierSerializer i' = identifierSerializer i ->
  entitySerializer i' = entitySerializer i ->
  (forall kb' : list byte,
     Serialize (identifierSerializer i) id <> (kb', None) ->
     entities i' !! string_of_list_byte kb' = entities i !! string_of_list_byte kb') ->
  cache_coherent (delete id m) i'.
Proof.
  intros Hinj Hcoh Hids Hes Hsame k e. rewrite lookup_delete.
  case_decide as Hk; [discriminate|]. intros Hm.
  destruct (Hcoh k e Hm) as (kb & raw & Hkb & Hraw & Hde).
  exists kb, raw. rewrite Hids, Hes. split; [exact Hkb|]. split; [|exact Hde].
  rewrite Hsame; [exact Hraw|].
  intros Hid. apply Hk. exact (Hinj id k kb Hid Hkb).
Qed.

Lemma cache_layer_simulation {N : Type} (P : T -> Prop)
    (S : Repository T K N -> Repository T K (InMemoryRepository T K) -> Prop) :
  simulation P S -> simulation P (cache_layer P S).
Proof.
  intros HS. constructor.
  - intros r1 r2 ctx id (c & i & m & -> & -> & Hm & HSc & Hfit & Hcoh).
    destruct (Get_returns_receiver i ctx id) as [res Hstore].
    pose proof (store_Get_call i ctx id res Hstore) as Hr2. rewrite Hr2.
    change (Repository_Get (cache_repository c) ctx id)
      with (after_call (cache_repository c) (Cache_Get c ctx id)).
    destruct (m !! id) as [e|] eqn:Hc.
    + assert (Hhit : map_lookup (cached c) id = Some e) by (now rewrite Hm).
      rewrite (Cache_Get_hit c ctx id e Hhit). simpl.
      destruct (Hcoh id e Hc) as (kb & raw & Hk & Hraw & Hde).
      rewrite (Get_found i ctx id kb raw e Hk Hraw Hde) in Hstore.
      injection Hstore as <-.
      split; [reflexivity|]. exists c, i, m. auto 10.
    + assert (Hmiss : map_lookup (cached c) id = None) by (now rewrite Hm).
      pose proof (sim_Get P S HS _ _ ctx id HSc) as Hag. rewrite Hr2 in Hag.
      destruct (Repository_Get (Cache_Next c) ctx id) as [[[res' next'] out]|] eqn:Hnext;
        [|contradiction].
      destruct Hag as [-> HS'].
      rewrite (Cache_Get_miss c ctx id res next' out m Hmiss Hm Hnext). simpl.
      split; [reflexivity|].
      eexists _, i, _. split; [reflexivity|]. split; [reflexivity|].
      split; [reflexivity|]. split; [exact HS'|]. split; [exact Hfit|].
      destruct res as [entity [err|]]; [exact Hcoh|].
      intros k e. rewrite lookup_insert. case_decide as Hk; [|apply Hcoh].
      intros [= <-].
      destruct (Get_found_inv i ctx id entity _ _ Hstore) as (kb & raw & Hkid & Hraw & Hde).
      destruct Hfit as (_ & _ & Hwk).
      destruct (Hwk _ raw entity Hraw Hde) as (kb' & Hk' & Hsame).
      exists kb', raw. subst k. rewrite Hsame. auto.
  - intros r1 r2 ctx entity HP (c & i & m & -> & -> & Hm & HSc & Hfit & Hcoh).
    destruct (Set_cases i ctx entity) as (err & i' & Hset & Hids & Hes & Hcase).
    pose proof (store_Set_call i i' ctx entity err Hset) as Hr2. rewrite Hr2.
    pose proof (sim_Set P S HS _ _ ctx entity HP HSc) as Hag. rewrite Hr2 in Hag.
    destruct (Repository_Set (Cache_Next c) ctx entity) as [[[err' next'] out]|] eqn:Hnext;
      [|contradiction].
    destruct Hag as [-> HS'].
    change (Repository_Set (cache_repository c) ctx entity)
      with (after_call (cache_repository c) (Cache_Set c ctx entity)).
    unfold Cache_Set. rewrite Hnext, Hm. simpl. split; [reflexivity|].
    eexists _, i', _. split; [reflexivity|]. split; [reflexivity|].
    split; [reflexivity|]. split; [exact HS'|].
    destruct Hcase as [[_ ->]|(_ & kb & raw & Hk & Hr & Hent)].
    + split; [exact Hfit|].
      apply (cache_coherent_after_write _ i i); auto. apply Hfit.
    + split; [exact (store_fit_insert P i i' entity kb raw Hfit HP Hids Hes Hk Hr Hent)|].
      apply (cache_coherent_after_write _ i i'); auto; [apply Hfit|].
      intros kb' Hne. rewrite Hent. apply lookup_insert_ne.
      intros Heq. apply string_of_list_byte_inj in Heq. subst kb'. contradiction.
  - intros r1 r2 ctx id (c & i & m & -> & -> & Hm & HSc & Hfit & Hcoh).
    destruct (Delete_cases i ctx id) as (err & i' & Hdel & Hids & Hes & Hcase).
    pose proof (store_Delete_call i i' ctx id err Hdel) as Hr2. rewrite Hr2.
    pose proof (sim_Delete P S HS _ _ ctx id HSc) as Hag. rewrite Hr2 in Hag.
    destruct (Repository_Delete (Cache_Next c) ctx id) as [[[err' next'] out]|] eqn:Hnext;
      [|contradiction].
    destruct Hag as [-> HS'].
    change (Repository_Delete (cache_repository c) ctx id)
      with (after_call (cache_repository c) (Cache_Delete c ctx id)).
    unfold Cache_Delete. rewrite Hnext, Hm. simpl. split; [reflexivity|].
    eexists _, i', _. split; [reflexivity|]. split; [reflexivity|].
    split; [reflexivity|]. split; [exact HS'|].
    destruct Hcase as [[_ ->]|(_ & kb & Hk & Hent)].
    + split; [exact Hfit|].
      apply (cache_coherent_after_write _ i i); auto. apply Hfit.
    + split; [exact (store_fit_delete P i i' _ Hfit Hids Hes Hent)|].
      apply (cache_coherent_after_write _ i i'); auto; [apply Hfit|].
      intros kb' Hne. rewrite Hent. apply lookup_delete_ne.
      intros Heq. apply string_of_list_byte_inj in Heq. subst kb'. contradiction.
Qed.

Lemma eq_simulation (P : T -> Prop) (N : Type) :
  simulation P (@eq (Repository T K N)).
Proof.
  constructor.
  - intros r1 r2 ctx id <-. unfold agree.
    destruct (Repository_Get r1 ctx id) as [[[res r'] out]|]; auto.
  - intros r1 r2 ctx entity _ <-. unfold agree.
    destruct (Repository_Set r1 ctx entity) as [[[err r'] out]|]; auto.
  - intros r1 r2 ctx id <-. unfold agree.
    destruct (Repository_Delete r1 ctx id) as [[[err r'] out]|]; auto.
Qed.

(** A debug decorator gives the caller the answers of the stage it wraps,
    for every sequence of calls and whatever their contexts carry; it
    panics exactly when that stage does. *)
Theorem Debug_does_not_change_answers :
  forall (N : Type) (d : Debug T K N) (ops : list (operation T K)),
    answers_of (run (debug_repository d) ops) = answers_of (run (Debug_Next d) ops).
Proof.
  intros N d ops.
  apply (run_simulation _ _ (debug_layer_simulation (fun _ => True) N));
    [apply sets_only_any|].
  exists d. split; reflexivity.
Qed.

(** A telemetry decorator gives the caller the answers of the stage it
    wraps, for every sequence of calls. *)
Theorem Telemetry_does_not_change_answers :
  forall (N : Type) (t : Telemetry T K N) (ops : list (operation T K)),
    answers_of (run (telemetry_repository t) ops) =
    answers_of (run (Telemetry_Next t) ops).
Proof.
  intros N t ops.
  apply (run_simulation _ _ (telemetry_layer_simulation (fun _ => True) N));
    [apply sets_only_any|].
  exists t. split; reflexivity.
Qed.

(** A cache whose map has been made, in front of the in-memory store, gives
    the caller the answers that the store alone gives, for every sequence of
    [Get], [Set] and [Delete] made one after the other, provided that the
    identifier serializer sends different identifiers to different bytes,
    that the entity serializer decodes what it encodes, that every stored
    entity sits under the key of its own identifier, and that what the cache
    holds is what the store holds (all true of a cache over a newly made map
    in front of a new store). *)
Theorem Cache_over_store_does_not_change_answers :
  forall (m : gmap K T) (i : InMemoryRepository T K) (ops : list (operation T K)),
    store_fit i ->
    cache_coherent m i ->
    answers_of (run (cache_repository
                       {| Cache_Next := store_repository i; cached := made_map m |})
                    ops) =
    answers_of (run (store_repository i) ops).
Proof.
  intros m i ops (Hinj & Hrt & Hwk) Hcoh.
  apply (run_simulation (fun _ => True) _
           (cache_layer_simulation _ eq (eq_simulation _ _)));
    [apply sets_only_any|].
  eexists _, i, m. split; [reflexivity|]. split; [reflexivity|].
  split; [reflexivity|]. split; [reflexivity|]. split; [|exact Hcoh].
  split; [exact Hinj|]. split; [|exact Hwk].
  intros e raw _. apply Hrt.
Qed.

Lemma new_store_fit (ids : serializer K) (es : serializer T) :
  identifiers_injective ids -> entities_round_trip es ->
  store_fit (NewInMemoryRepository ids es).
Proof.
  intros Hinj Hrt. split; [exact Hinj|]. split; [exact Hrt|].
  intros key raw e. simpl. rewrite lookup_empty. discriminate.
Qed.

Lemma empty_cache_coherent (i : InMemoryRepository T K) : cache_coherent ∅ i.
Proof. intros k e. rewrite lookup_empty. discriminate. Qed.

End Layers.

Import StorageFixtures StrictFixtures.

Lemma split_line_append (a b : string) :
  has_line_feed a = false -> split_line (a +:+ newline +:+ b) = Some (a, b).
Proof.
  induction a as [|ch a IH]; intros Hfeed.
  - reflexivity.
  - change (String ch a +:+ newline +:+ b) with (String ch (a +:+ newline +:+ b)).
    simpl in *. destruct (decide (ch = ascii_of_nat 10)); [discriminate|].
    now rewrite (IH Hfeed).
Qed.

Lemma strictSerializer_round_trip : entities_round_trip strictSerializer.
Proof.
  intros [id name] raw. simpl. unfold strict_Marshal, record_Marshal, record_Unmarshal.
  simpl. destruct (has_line_feed id) eqn:Hfeed; [discriminate|].
  intros [= <-]. rewrite string_of_list_byte_of_string.
  now rewrite (split_line_append id name Hfeed).
Qed.

(** The repository that [NewUserRepository] builds is, from the outside in,
    telemetry, debug "CacheCall", cache (over a made, empty map), debug
    "StorageCall" and the store, built without error.  For every sequence
    of calls made one after the other that sets only users whose JSON
    encoding decodes back to them, it gives the caller the answers that the
    bare store gives. *)
Theorem NewUserRepository_answers_as_store :
  forall (json_Marshal : User -> list byte * option error)
         (json_Unmarshal : list byte -> User -> User * option error)
         (debugWriter : Writer) (ops : list (operation User UserID)),
    sets_only (fun u : User =>
                 forall raw : list byte,
                   json_Marshal u = (raw, None) -> json_Unmarshal raw zero = (u, None))
              ops ->
    let store := NewInMemoryRepository userIDSerializer
                   (userSerializer json_Marshal json_Unmarshal) in
    let chain :=
      telemetry_repository
        {| Telemetry_Next :=
             debug_repository
               {| Debug_Next :=
                    cache_repository
                      {| Cache_Next :=
                           debug_repository
                             {| Debug_Next := store_repository store;
                                Debug_Output := debugWriter;
                                Debug_Label := "StorageCall" |};
                         cached := make_map |};
                  Debug_Output := debugWriter;
                  Debug_Label := "CacheCall" |} |} in
    NewUserRepository json_Marshal json_Unmarshal debugWriter =
      ({| dynamic_type := _; dynamic_value := chain |}, None)
    /\ answers_of (run chain ops) = answers_of (run (store_repository store) ops).
Proof.
  intros json_Marshal json_Unmarshal debugWriter ops Hops store chain.
  split; [reflexivity|].
  unfold chain.
  etransitivity.
  { eapply (run_simulation _ _ (telemetry_layer_simulation _ _)); [exact Hops|].
    eexists. split; reflexivity. }
  cbn [Telemetry_Next]. etransitivity.
  { eapply (run_simulation _ _ (debug_layer_simulation _ _)); [exact Hops|].
    eexists. split; reflexivity. }
  cbn [Debug_Next].
  eapply (run_simulation _ _
            (cache_layer_simulation _ _ (debug_layer_simulation _ _))); [exact Hops|].
  eexists _, store, ∅. split; [reflexivity|]. split; [reflexivity|].
  split; [reflexivity|]. cbn [Cache_Next].
  split; [eexists; split; reflexivity|].
  split; [|apply empty_cache_coherent].
  split; [apply userIDSerializer_injective|]. split.
  - intros u raw Hu. apply Hu.
  - intros key raw e. simpl. rewrite lookup_empty. discriminate.
Qed.

Lemma Cache_over_store_does_not_change_answers_witness :
  (store_fit strictStore /\ cache_coherent ∅ strictStore)
  /\ answers_of
       (run (cache_repository
               {| Cache_Next := store_repository strictStore; cached := made_map ∅ |})
            [op_Set background john; op_Get background "10";
             op_Set background johnny; op_Get background "10";
             op_Delete background "10"; op_Get background "10"]) =
     Some [answer_Set None; answer_Get john None;
           answer_Set None; answer_Get johnny None;
           answer_Delete None; answer_Get zero (Some errNotFound)].
Proof.
  assert (Hfit : store_fit strictStore).
  { apply new_store_fit;
      [apply userIDSerializer_injective | apply strictSerializer_round_trip]. }
  split; [split; [exact Hfit | apply empty_cache_coherent]|].
  rewrite (Cache_over_store_does_not_change_answers ∅ strictStore _ Hfit
             (empty_cache_coherent strictStore)).
  reflexivity.
Defined.

Lemma NewUserRepository_answers_as_store_witness :
  snd (NewUserRepository strict_Marshal record_Unmarshal os_Stdout) = None
  /\ answers_of
       (run (dynamic_value (fst (NewUserRepository strict_Marshal record_Unmarshal os_Stdout)))
            [op_Set (ContextWithEnabledDebug background) john;
             op_Get (ContextWithEnabledDebug background) "10";
             op_Get background "10";
             op_Delete background "10";
             op_Get background "10"]) =
     Some [answer_Set None; answer_Get john None; answer_Get john None;
           answer_Delete None; answer_Get zero (Some errNotFound)].
Proof.
  destruct (NewUserRepository_answers_as_store strict_Marshal record_Unmarshal os_Stdout
              [op_Set (ContextWithEnabledDebug background) john;
               op_Get (ContextWithEnabledDebug background) "10";
               op_Get background "10";
               op_Delete background "10";
               op_Get background "10"]) as [Hbuilt Hanswers].
  { repeat constructor. intros raw. apply (strictSerializer_round_trip john raw). }
  rewrite Hbuilt. split; [reflexivity|].
  etransitivity; [exact Hanswers | reflexivity].
Defined.

End Transparency.

(** ** The properties above on concrete values *)

Module MoreWitnesses.
Import Storage StorageRuns StorageFixtures StrictFixtures.
Import StoreMore DecoratorsMore CacheMore.

Lemma ContextWithEnabledDebug_enables_witness :
  Debug_Get debugOverStub (ContextWithEnabledDebug markerNotString) "10" =
  Some (((john, None), Debug_with_Next debugOverStub (countingStub john 1)),
        [fmt_Fprintf os_Stdout (trace_line "CacheCall" "Get")]).
Proof.
  exact (proj1 (ContextWithEnabledDebug_enables debugOverStub markerNotString "10"
                  (john, None) (countingStub john 1) [] eq_refl)).
Defined.

Lemma Debug_silent_without_marker_witness :
  context_binds (context_WithValue background (otherCtxKey "debug") (any_string "enabled"))
    debugEnabler = false
  /\ Debug_Get debugOverStub
       (context_WithValue background (otherCtxKey "debug") (any_string "enabled")) "10" =
     Some (((john, None), Debug_with_Next debugOverStub (countingStub john 1)), []).
Proof.
  split; [reflexivity|].
  exact (proj1 (Debug_silent_without_marker debugOverStub
                  (context_WithValue background (otherCtxKey "debug") (any_string "enabled"))
                  eq_refl)
           "10" (john, None) (countingStub john 1) [] eq_refl).
Defined.

Lemma Telemetry_reports_after_delegating_witness :
  Telemetry_Get {| Telemetry_Next := countingStub john 0 |} background "10" =
  Some (((john, None), {| Telemetry_Next := countingStub john 1 |}),
        [log_Printf "Get: "]).
Proof.
  exact (proj1 (proj1 (Telemetry_reports_after_delegating
                         {| Telemetry_Next := countingStub john 0 |} background)
                  "10" (john, None) (countingStub john 1) [] eq_refl)).
Defined.

Lemma Cache_entries_stay_keyed_by_identifier_witness :
  exists r' : Repository User UserID (Cache User UserID nat),
    run (cache_repository cacheBeforeStub) [op_Get background "a"] =
      Some ([answer_Get userB None], r')
    /\ keyed_by_identifier (cached (receiver r')).
Proof.
  assert (Hrun : exists r', run (cache_repository cacheBeforeStub) [op_Get background "a"] =
                            Some ([answer_Get userB None], r'))
    by (eexists; reflexivity).
  destruct Hrun as [r' Hrun]. exists r'. split; [exact Hrun|].
  apply (Cache_entries_stay_keyed_by_identifier cacheBeforeStub
           [op_Get background "a"] [answer_Get userB None] r'); [|exact Hrun].
  intros k e Hk. vm_compute in Hk. discriminate Hk.
Defined.

Lemma Cache_touches_one_entry_witness :
  exists c' : Cache User UserID nat,
    Cache_Get cacheBeforeStub background "a" = Some (((userB, None), c'), [])
    /\ map_lookup (cached c') "a" = map_lookup (cached cacheBeforeStub) "a".
Proof.
  assert (Hget : exists c', Cache_Get cacheBeforeStub background "a" =
                            Some (((userB, None), c'), []))
    by (eexists; reflexivity).
  destruct Hget as [c' Hget]. exists c'. split; [exact Hget|].
  apply (proj1 (Cache_touches_one_entry cacheBeforeStub background)
           "a" userB None c' [] Hget).
  intros Heq. vm_compute in Heq. discriminate Heq.
Defined.

Lemma store_errors_keep_their_cause_witness :
  exists err : error,
    InMemoryRepository_Get emptyStore background EmptyString =
      Some (((zero, Some err), emptyStore), [])
    /\ errors_Is err errEmptyIdentifier = true.
Proof.
  eexists. split; [reflexivity|].
  destruct (proj1 (store_errors_keep_their_cause emptyStore background EmptyString john)
              zero _ emptyStore [] eq_refl)
    as [Hnf | [(cause & kb & Hser & His & _) | (cause & raw & _ & _ & Htext)]].
  - discriminate Hnf.
  - vm_compute in Hser. injection Hser as _ <-. exact His.
  - vm_compute in Htext. discriminate Htext.
Defined.

End MoreWitnesses.

(** ** The window between the two parts of [Cache.Set] *)

Module CacheRace.
Import Storage StorageRuns CacheProperties StoreMore Transparency.

Section Race.
Context {T K : Type} `{Countable K} `{!Entity T K} `{!ZeroValue T}.

Lemma Cache_Set_in_two_parts {N : Type} (c : Cache T K N) (ctx : Context) (entity : T) :
  Cache_Set c ctx entity = Cache_Set_delegate (Cache_Set_locked c entity) ctx entity.
Proof. reflexivity. Qed.

(** [Cache.Set] is its locked part followed by its delegated write.  When
    another caller's [Get] of the same identifier runs between the two, on a
    cache whose map has been made, in front of a store that holds an older
    entity for the identifier,
    that [Get] misses, reads the older entity from the store and caches it;
    the delegated write then stores the new entity, and a [Get] made after
    [Set] has returned still answers with the older entity from the cache,
    while the store answers with the new one. *)
Theorem Cache_Set_window_keeps_older_entity :
  forall (m : gmap K T) (i : InMemoryRepository T K) (ctx : Context)
         (older newer decoded : T) (id : K) (kb rawOlder rawNewer : list byte),
    Identifier newer = id ->
    Identifier older = id ->
    Serialize (identifierSerializer i) id = (kb, None) ->
    entities i !! string_of_list_byte kb = Some rawOlder ->
    UnSerialize (entitySerializer i) rawOlder = (older, None) ->
    Serialize (entitySerializer i) newer = (rawNewer, None) ->
    UnSerialize (entitySerializer i) rawNewer = (decoded, None) ->
    let c0 := {| Cache_Next := store_repository i; cached := made_map m |} in
    Cache_Set c0 ctx newer = Cache_Set_delegate (Cache_Set_locked c0 newer) ctx newer
    /\ exists c2 c3 : Cache T K (InMemoryRepository T K),
         Cache_Get (Cache_Set_locked c0 newer) ctx id = Some (((older, None), c2), [])
         /\ Cache_Set_delegate c2 ctx newer = Some ((None, c3), [])
         /\ Cache_Get c3 ctx id = Some (((older, None), c3), [])
         /\ Repository_Get (Cache_Next c3) ctx id =
            Some (((decoded, None), Cache_Next c3), []).
Proof.
  intros m i ctx older newer decoded id kb rawOlder rawNewer
         Hnew Hold Hk Hraw Hde Hser Hde' c0.
  split; [reflexivity|].
  assert (Hmiss : map_lookup (cached (Cache_Set_locked c0 newer)) id = None).
  { simpl. rewrite Hnew. apply lookup_delete_eq. }
  pose proof (store_Get_call i ctx id _ (Get_found i ctx id kb rawOlder older Hk Hraw Hde))
    as Hstore.
  pose proof (Cache_Get_miss (Cache_Set_locked c0 newer) ctx id _ _ _
                (delete (Identifier newer) m) Hmiss eq_refl Hstore) as Hget.
  eexists _, _. split; [exact Hget|].
  assert (Hset : InMemoryRepository_Set i ctx newer =
                 Some ((None, InMemoryRepository_with_entities i
                                (<[string_of_list_byte kb := rawNewer]> (entities i))), [])).
  { unfold InMemoryRepository_Set. now rewrite Hnew, Hk, Hser. }
  split.
  { unfold Cache_Set_delegate. cbn [Cache_Next cached].
    rewrite (store_Set_call i _ ctx newer None Hset). reflexivity. }
  split.
  - apply Cache_Get_hit. cbn [cached map_lookup]. rewrite Hold. apply lookup_insert_eq.
  - cbn [Cache_Next]. apply store_Get_call.
    apply (Get_found _ ctx id kb rawNewer decoded); simpl; auto.
    apply lookup_insert_eq.
Qed.

End Race.

Import StorageFixtures StrictFixtures.

Lemma Cache_Set_window_keeps_older_entity_witness :
  exists c2 c3 : Cache User UserID (InMemoryRepository User UserID),
    Cache_Get (Cache_Set_locked
                 {| Cache_Next := store_repository storeWithJohn; cached := make_map |}
                 johnny)
              background "10" = Some (((john, None), c2), [])
    /\ Cache_Set_delegate c2 background johnny = Some ((None, c3), [])
    /\ Cache_Get c3 background "10" = Some (((john, None), c3), [])
    /\ Repository_Get (Cache_Next c3) background "10" =
       Some (((johnny, None), Cache_Next c3), []).
Proof.
  destruct (Cache_Set_window_keeps_older_entity ∅ storeWithJohn background
              john johnny johnny "10" (list_byte_of_string "10")
              (list_byte_of_string ("10" +:+ newline +:+ "John"))
              (list_byte_of_string ("10" +:+ newline +:+ "Johnny")))
    as [_ Hrace]; try reflexivity.
  exact Hrace.
Defined.

End CacheRace.

Module HttphandlerWitness.
Import Middlewarebuilder Httphandler HttphandlerProperties.

Lemma CreateGetUserHandler_logs_then_serves_witness :
  ServeHTTP (fst CreateGetUserHandler) {| Method := "GET"; URL := "/user" |} =
  Some [log_Printf "GET /user"; Write (list_byte_of_string "user")].
Proof.
  exact (proj1 (proj2 CreateGetUserHandler_logs_then_serves)
           {| Method := "GET"; URL := "/user" |}).
Defined.

End HttphandlerWitness.
